(** * PDFOutliner: a shallow embedding of [app/extract_outline.py]

    The development follows the Python module function by function.

    Conventions of the embedding.
    - A Python [str] is a [list ascii]: the model covers the strings whose
      code points are below 256.  On that range [str.split()], [str.strip()]
      and the regular expression class [\s] agree on what white space is,
      [\d] is the ten ASCII digits, and [re.IGNORECASE] is ASCII case folding
      for the letters of the three keywords.
    - A Python [float] held by the data is a rational number of [Q], the
      value of the float; comparisons and dictionary keys go through
      [Qeq_bool] / [Qle_bool].  Where the rounding of binary64 decides what
      the program does it is modelled: the line test of [_group_by_line]
      ([float_dist_lt_5]) and the title score ([score_line], computed with
      the binary64 operations of [PrimFloat]).  The frequencies and the
      size threshold are computed exactly.
    - A Python [dict] is an association list in insertion order.
    - Code that can raise runs in the error monad [Exc]; [try ... except
      Exception] is [try_except]. *)

From Stdlib Require Import Floats.
From Stdlib Require Import QArith ZArith List String Ascii Bool Lia Lqa.
From Stdlib Require Import Permutation Sorted SetoidList DecimalString Qabs Qround.
Import ListNotations.

Set Implicit Arguments.
Local Open Scope list_scope.

(* ------------------------------------------------------------------ *)
(** * Python strings *)
(* ------------------------------------------------------------------ *)

Definition pystr := list ascii.

(** String literals of the source. *)
Definition str (s : string) : pystr := list_ascii_of_string s.

Definition code (c : ascii) : nat := nat_of_ascii c.

(** [str.isspace] on one character, which is also the class [\s] of [re]
    and the separator set of [str.split()] and [str.strip()]. *)
Definition is_space (c : ascii) : bool :=
  let n := code c in
  ((9 <=? n) && (n <=? 13)) || ((28 <=? n) && (n <=? 32))
  || (n =? 133) || (n =? 160).

(** The class [\d]. *)
Definition is_digit (c : ascii) : bool :=
  let n := code c in (48 <=? n) && (n <=? 57).

(** [str.lower] on one character of the ASCII range. *)
Definition lower (c : ascii) : ascii :=
  let n := code c in
  if (65 <=? n) && (n <=? 90) then ascii_of_nat (n + 32) else c.

Definition space : ascii := " "%char.

Fixpoint drop_while (p : ascii -> bool) (s : pystr) : pystr :=
  match s with
  | [] => []
  | c :: s' => if p c then drop_while p s' else s
  end.

(** [text.split()]: the maximal runs of characters that are not white space.
    [cur] is the run being read, last character first. *)
Fixpoint split_from (cur : pystr) (s : pystr) : list pystr :=
  match s with
  | [] => match cur with [] => [] | _ => [rev cur] end
  | c :: s' =>
      if is_space c
      then match cur with
           | [] => split_from [] s'
           | _ => rev cur :: split_from [] s'
           end
      else split_from (c :: cur) s'
  end.

Definition split (s : pystr) : list pystr := split_from [] s.

(** [' '.join(words)]. *)
Fixpoint join (words : list pystr) : pystr :=
  match words with
  | [] => []
  | [w] => w
  | w :: ws => w ++ space :: join ws
  end.

(** [''.join(parts)]. *)
Definition join_empty (parts : list pystr) : pystr := List.concat parts.

(** [text.strip()]. *)
Definition strip (s : pystr) : pystr :=
  rev (drop_while is_space (rev (drop_while is_space s))).

(** [len(text)]. *)
Definition len (s : pystr) : nat := List.length s.

(** [bool(text)]: a string is true when it is not empty. *)
Definition truthy (s : pystr) : bool :=
  match s with [] => false | _ => true end.

(** [sub in text]. *)
Fixpoint starts_with (p s : pystr) : bool :=
  match p, s with
  | [], _ => true
  | _ :: _, [] => false
  | a :: p', c :: s' => Ascii.eqb a c && starts_with p' s'
  end.

Fixpoint contains (p s : pystr) : bool :=
  starts_with p s ||
  match s with
  | [] => false
  | _ :: s' => contains p s'
  end.

(* ------------------------------------------------------------------ *)
(** * The regular expressions of the text cleaners *)
(* ------------------------------------------------------------------ *)

(** A literal of a pattern compiled with [re.IGNORECASE], given in lower
    case: the rest of [s] after it, or [None]. *)
Fixpoint match_ci (kw s : pystr) : option pystr :=
  match kw with
  | [] => Some s
  | k :: kw' =>
      match s with
      | [] => None
      | c :: s' => if Ascii.eqb (lower c) k then match_ci kw' s' else None
      end
  end.

(** [(Chapter|Section|Part)] under [re.IGNORECASE]. *)
Definition match_ordinal_word (s : pystr) : option pystr :=
  match match_ci (str "chapter") s with
  | Some r => Some r
  | None =>
      match match_ci (str "section") s with
      | Some r => Some r
      | None => match_ci (str "part") s
      end
  end.

(** [\.?] *)
Definition drop_dot (s : pystr) : pystr :=
  match s with
  | c :: s' => if Ascii.eqb c "."%char then s' else s
  | [] => []
  end.

(** [re.sub(r'^(Chapter|Section|Part)\s*\d*\.?\s*', '', text,
    flags=re.IGNORECASE)].  The pattern is anchored at the start, and once
    the keyword is read every later item is optional and greedy. *)
Definition sub_ordinal_prefix (s : pystr) : pystr :=
  match match_ordinal_word s with
  | Some r =>
      drop_while is_space (drop_dot (drop_while is_digit (drop_while is_space r)))
  | None => s
  end.

Definition is_nil (s : pystr) : bool :=
  match s with [] => true | _ => false end.

(** [\s+\d+\s*$] matched at the start of [s].  No item can give back what
    it read to let the next one succeed (a white-space character is not a
    digit and conversely), so the greedy reading decides. *)
Definition match_trailing_number (s : pystr) : bool :=
  match s with
  | c :: _ =>
      is_space c &&
      match drop_while is_space s with
      | d :: r1 =>
          is_digit d && is_nil (drop_while is_space (drop_while is_digit r1))
      | [] => false
      end
  | [] => false
  end.

(** [re.sub(r'\s+\d+\s*$', '', text)]: the leftmost match is removed; it
    runs to the end of the text. *)
Fixpoint sub_trailing_number (s : pystr) : pystr :=
  if match_trailing_number s then []
  else match s with
       | [] => []
       | c :: s' => c :: sub_trailing_number s'
       end.

(** [$] without [re.MULTILINE]: the end of the text, or just before a final
    newline. *)
Definition at_dollar (s : pystr) : bool :=
  match s with
  | [] => true
  | [c] => Ascii.eqb c (ascii_of_nat 10)
  | _ => false
  end.

(** [\.(pdf|docx?)$] under [re.IGNORECASE], matched at the start of [s]:
    what is left of [s] after the match. *)
Definition match_file_suffix (s : pystr) : option pystr :=
  match s with
  | c :: r =>
      if Ascii.eqb c "."%char then
        match match_ci (str "pdf") r with
        | Some r' => if at_dollar r' then Some r' else None
        | None =>
            match match_ci (str "doc") r with
            | Some r' =>
                match match_ci (str "x") r' with
                | Some r'' =>
                    if at_dollar r'' then Some r''
                    else if at_dollar r' then Some r' else None
                | None => if at_dollar r' then Some r' else None
                end
            | None => None
            end
        end
      else None
  | [] => None
  end.

(** [re.sub(r'\.(pdf|docx?)$', '', text, flags=re.IGNORECASE)]. *)
Fixpoint sub_file_suffix (s : pystr) : pystr :=
  match match_file_suffix s with
  | Some r => r
  | None =>
      match s with
      | [] => []
      | c :: s' => c :: sub_file_suffix s'
      end
  end.

(* ------------------------------------------------------------------ *)
(** * class PDFOutlineExtractor: configuration and text cleaners *)
(* ------------------------------------------------------------------ *)

Record PDFOutlineExtractor := {
  font_size_threshold : Q;
  min_heading_chars : nat;
  max_heading_chars : nat
}.

(** [__init__] *)
Definition __init__ : PDFOutlineExtractor :=
  {| font_size_threshold := 2;
     min_heading_chars := 3;
     max_heading_chars := 200 |}.

(** [min_heading_chars <= len(text) <= max_heading_chars] *)
Definition in_bounds (self : PDFOutlineExtractor) (text : pystr) : bool :=
  (min_heading_chars self <=? len text) && (len text <=? max_heading_chars self).

(** [_clean_heading_text] *)
Definition _clean_heading_text (self : PDFOutlineExtractor) (text : pystr) : pystr :=
  let text := join (split text) in
  let text := sub_ordinal_prefix text in
  if in_bounds self text then sub_trailing_number text else [].

(** [_clean_title_text] *)
Definition _clean_title_text (self : PDFOutlineExtractor) (text : pystr) : pystr :=
  firstn 200 (sub_file_suffix (join (split text))).

(* ------------------------------------------------------------------ *)
(** * Exceptions *)
(* ------------------------------------------------------------------ *)

(** The exceptions the module can meet; all of them derive from Python's
    [Exception].  [LibraryError] stands for whatever [pymupdf] and
    [pdfplumber] raise on a file they cannot read. *)
Inductive PyException :=
| ZeroDivisionError
| KeyError
| IndexError
| ValueError
| TypeError
| AttributeError
| LibraryError (msg : string).

(** A computation that returns a value or raises. *)
Definition Exc (A : Type) : Type := (PyException + A)%type.

Definition ret {A} (a : A) : Exc A := inr a.
Definition raise {A} (e : PyException) : Exc A := inl e.

Definition bind {A B} (m : Exc A) (k : A -> Exc B) : Exc B :=
  match m with
  | inl e => inl e
  | inr a => k a
  end.

(** [try: body except Exception as e: handler] *)
Definition try_except {A} (body : Exc A) (handler : PyException -> Exc A) : Exc A :=
  match body with
  | inl e => handler e
  | inr a => inr a
  end.

Declare Scope exc_scope.
Delimit Scope exc_scope with exc.
Notation "x <- m ;; k" := (bind m (fun x => k))
  (at level 61, m at next level, right associativity) : exc_scope.
Notation "' p <- m ;; k" := (bind m (fun p => k))
  (at level 61, p pattern, m at next level, right associativity) : exc_scope.
Local Open Scope exc_scope.

(** A [for] loop whose body can raise: the state is threaded from left to
    right and the first exception ends the loop. *)
Fixpoint for_each {A S} (l : list A) (body : S -> A -> Exc S) (s : S) : Exc S :=
  match l with
  | [] => ret s
  | a :: l' => s' <- body s a ;; for_each l' body s'
  end.

(** A generator expression whose element can raise. *)
Fixpoint map_exc {A B} (f : A -> Exc B) (l : list A) : Exc (list B) :=
  match l with
  | [] => ret []
  | a :: l' => b <- f a ;; bs <- map_exc f l' ;; ret (b :: bs)
  end.

(* ------------------------------------------------------------------ *)
(** * Numbers *)
(* ------------------------------------------------------------------ *)

Definition Qltb (x y : Q) : bool := negb (Qle_bool y x).

(** [x / y] with a divisor that is not a literal. *)
Definition py_div (x y : Q) : Exc Q :=
  if Qeq_bool y 0 then raise ZeroDivisionError else ret (x / y).

(** Rounding to the nearest integer, halves to the even one. *)
Definition round_half_even (x : Q) : Z :=
  let f := Qfloor x in
  let r := x - inject_Z f in
  if Qltb r (1 # 2) then f
  else if Qltb (1 # 2) r then (f + 1)%Z
  else if Z.even f then f else (f + 1)%Z.

(** [round(x, 1)] *)
Definition round1 (x : Q) : Q := Qmake (round_half_even (x * 10)) 10.

(** [sum(xs)] *)
Definition py_sum (xs : list Q) : Q := fold_left Qplus xs 0.

(** [min(xs)] and [max(xs)]: the first extremal element; [ValueError] on an
    empty sequence. *)
Definition py_min (xs : list Q) : Exc Q :=
  match xs with
  | [] => raise ValueError
  | x :: xs' => ret (fold_left (fun m y => if Qltb y m then y else m) xs' x)
  end.

Definition py_max (xs : list Q) : Exc Q :=
  match xs with
  | [] => raise ValueError
  | x :: xs' => ret (fold_left (fun m y => if Qltb m y then y else m) xs' x)
  end.

(** [max(items, key=...)] on items already paired with their keys: an item
    replaces the best one only when its key is strictly greater, so the first
    maximal item wins. *)
Fixpoint max_by_from {A} (best : A) (bk : Q) (l : list (A * Q)) : A :=
  match l with
  | [] => best
  | (a, k) :: l' =>
      if Qltb bk k then max_by_from a k l' else max_by_from best bk l'
  end.

Definition max_by {A} (l : list (A * Q)) : Exc A :=
  match l with
  | [] => raise ValueError
  | (a, k) :: l' => ret (max_by_from a k l')
  end.

(** [str(n)] for an integer. *)
Definition str_of_int (n : Z) : pystr :=
  str (NilZero.string_of_int (Z.to_int n)).

(* ------------------------------------------------------------------ *)
(** * Binary64 *)
(* ------------------------------------------------------------------ *)

(** The operations of [PrimFloat] are those of IEEE 754 binary64 with
    rounding to the nearest float, ties to even: the arithmetic of a Python
    [float]. *)

(** [float(n)] for an integer. *)
Definition float_of_Z (z : Z) : float :=
  SF2Prim (binary_normalize prec emax z 0 false).

(** The float a rational number of the data stands for: the number itself
    when it is the value of a float, as the numbers the libraries hand over
    are (in lowest terms its denominator is then a power of 2), and a float
    next to it otherwise. *)
Definition float_of_Q (q : Q) : float :=
  let n := Qnum (Qred q) in
  let d := Zpos (Qden (Qred q)) in
  let k := Z.log2 d in
  if (n =? 0)%Z then 0%float
  else if (2 ^ k =? d)%Z
       then SF2Prim (binary_normalize prec emax n (- k) false)
       else (float_of_Z n / float_of_Z d)%float.

(** The floats written [0.4] and [0.3]. *)
Definition float_0_4 : float := 0x1.999999999999ap-2%float.
Definition float_0_3 : float := 0x1.3333333333333p-2%float.

(** [x / y] on floats, with a divisor that is not a literal: a zero of
    either sign raises. *)
Definition float_div (x y : float) : Exc float :=
  if (y =? 0)%float then raise ZeroDivisionError else ret (x / y)%float.

(** [x / n] for a float and an [int]: the integer is converted to a float,
    which is zero only for the integer 0. *)
Definition float_div_int (x : float) (n : Z) : Exc float :=
  if (n =? 0)%Z then raise ZeroDivisionError else ret (x / float_of_Z n)%float.

(** [sum] of floats: the additions start from 0 and go from the left, each
    one rounded (CPython up to 3.11; later versions compensate the rounding
    errors of the sum). *)
Definition float_sum (xs : list float) : float :=
  fold_left PrimFloat.add xs 0%float.

(** [max(l, key=...)] with float keys: the first element whose key no later
    key exceeds. *)
Fixpoint max_by_float_from {A} (best : A) (bk : float) (l : list (A * float)) : A :=
  match l with
  | [] => best
  | (a, k) :: l' =>
      if (bk <? k)%float then max_by_float_from a k l'
      else max_by_float_from best bk l'
  end.

Definition max_by_float {A} (l : list (A * float)) : Exc A :=
  match l with
  | [] => raise ValueError
  | (a, k) :: l' => ret (max_by_float_from a k l')
  end.

(* ------------------------------------------------------------------ *)
(** * Sorting *)
(* ------------------------------------------------------------------ *)

(** [sorted(l, key=...)] is stable and compares keys with [<] only.  An
    element is inserted in front of the sorted rest of the list, before the
    first element that is not smaller than it. *)
Section Sorting.
Variables (A K : Type) (lt : K -> K -> bool) (key : A -> K).

Fixpoint insert_sorted (x : A) (l : list A) : list A :=
  match l with
  | [] => [x]
  | y :: l' =>
      if lt (key y) (key x) then y :: insert_sorted x l' else x :: l
  end.

Fixpoint sorted (l : list A) : list A :=
  match l with
  | [] => []
  | x :: l' => insert_sorted x (sorted l')
  end.

(** [sorted(l, key=..., reverse=True)]: CPython reverses the list, sorts it
    and reverses the result, which keeps equal elements in their order. *)
Definition sorted_reverse (l : list A) : list A := rev (sorted (rev l)).
End Sorting.

(** [<] on pairs of numbers, as Python compares tuples. *)
Definition pair_ltb (a b : Q * Q) : bool :=
  if Qeq_bool (fst a) (fst b) then Qltb (snd a) (snd b) else Qltb (fst a) (fst b).

(* ------------------------------------------------------------------ *)
(** * Dictionaries *)
(* ------------------------------------------------------------------ *)

(** A dictionary with [float] keys, in insertion order. *)
Definition dict (V : Type) : Type := list (Q * V).

Fixpoint dict_get {V} (d : dict V) (k : Q) : option V :=
  match d with
  | [] => None
  | (k', v) :: d' => if Qeq_bool k' k then Some v else dict_get d' k
  end.

(** [d[k]] *)
Definition getitem {V} (d : dict V) (k : Q) : Exc V :=
  match dict_get d k with
  | Some v => ret v
  | None => raise KeyError
  end.

(** [k in d] *)
Definition dict_mem {V} (d : dict V) (k : Q) : bool :=
  match dict_get d k with Some _ => true | None => false end.

(** [d[k] = v] *)
Fixpoint dict_set {V} (d : dict V) (k : Q) (v : V) : dict V :=
  match d with
  | [] => [(k, v)]
  | (k', v') :: d' =>
      if Qeq_bool k' k then (k', v) :: d' else (k', v') :: dict_set d' k v
  end.

(** The in-place updates of [d[k]] on a [defaultdict] with factory value
    [dflt]: a missing key is created first. *)
Fixpoint defaultdict_update {V} (dflt : V) (f : V -> V) (d : dict V) (k : Q) : dict V :=
  match d with
  | [] => [(k, f dflt)]
  | (k', v) :: d' =>
      if Qeq_bool k' k then (k', f v) :: d'
      else (k', v) :: defaultdict_update dflt f d' k
  end.

(** [list(d)]: the keys. *)
Definition dict_keys {V} (d : dict V) : list Q := map fst d.

(** Values of the dictionaries that go to the JSON file. *)
Inductive PyVal :=
| PStr (s : pystr)
| PInt (n : Z)
| PFloat (x : Q).

(** A dictionary with string keys. *)
Definition pydict : Type := list (string * PyVal).

Fixpoint pydict_get (d : pydict) (k : string) : Exc PyVal :=
  match d with
  | [] => raise KeyError
  | (k', v) :: d' => if String.eqb k' k then ret v else pydict_get d' k
  end.

(** A value used as a sort key next to numbers. *)
Definition as_number (v : PyVal) : Exc Q :=
  match v with
  | PInt n => ret (inject_Z n)
  | PFloat x => ret x
  | PStr _ => raise TypeError
  end.

(* ------------------------------------------------------------------ *)
(** * The documents, as the two libraries present them *)
(* ------------------------------------------------------------------ *)

(** One character of [page.chars]; [fontname] is read with [.get]. *)
Record Glyph := {
  text : pystr;
  x0 : Q;
  x1 : Q;
  top : Q;
  size : Q;
  fontname : option pystr
}.

(** A [pdfplumber] page; reading [page.chars] parses the page and can
    raise. *)
Record Page := {
  chars : Exc (list Glyph);
  height : Q;
  width : Q
}.

(** What [pdfplumber.open] gives. *)
Record Pdf := { pages : list Page }.

(** An entry of [doc.get_toc()]: level, text and page. *)
Definition TocEntry : Type := (Z * pystr * Z)%type.

(** What [pymupdf.open] gives.  [metadata_title] is
    [doc.metadata.get('title', '')], whose value can be [None]. *)
Record MuDoc := {
  get_toc : Exc (list TocEntry);
  metadata_title : Exc (option pystr)
}.

(** The file system, seen through the two [open] calls. *)
Record Env := {
  pymupdf_open : pystr -> Exc MuDoc;
  pdfplumber_open : pystr -> Exc Pdf
}.

(** The dictionary [{"title": ..., "outline": [...]}] the extractor returns
    and [process_pdfs] dumps to the JSON file. *)
Record Outline := {
  title : pystr;
  outline : list pydict
}.

Definition empty_outline : Outline := {| title := []; outline := [] |}.

(** One value of the [stats] dictionary.  The key ['frequency'] is written
    for every size by the last loop of [_analyze_font_statistics]; until then
    the field holds 0. *)
Record Stat := {
  count : Z;
  is_bold : bool;
  sample : pystr;
  positions : list Q;
  frequency : Q
}.

(** The [defaultdict] factory. *)
Definition new_stat : Stat :=
  {| count := 0; is_bold := false; sample := []; positions := []; frequency := 0 |}.

Definition set_frequency (st : Stat) (f : Q) : Stat :=
  {| count := count st; is_bold := is_bold st; sample := sample st;
     positions := positions st; frequency := f |}.

(* ------------------------------------------------------------------ *)
(** * _group_by_line *)
(* ------------------------------------------------------------------ *)

Definition glyph_key (c : Glyph) : Q * Q := (top c, x0 c).

(** [abs(a - b) < 5] as binary64 evaluates it.  The subtraction rounds the
    exact difference to the nearest float, ties to even; [abs] and the
    comparison with the integer 5 are exact.  Between 4 and 8 the floats are
    2^-50 apart, so the float just below 5 is 5 - 2^-50, and of the two only
    5 has an even mantissa: the rounded difference is below 5 exactly when
    the exact one is below the midpoint 5 - 2^-51.  (With tops 5.3 and 0.3
    the exact difference is just under 5 and rounds to 5.0.) *)
Definition line_gap : Q := 5 - (1 # 2251799813685248).

Definition float_dist_lt_5 (a b : Q) : bool := Qltb (Qabs (a - b)) line_gap.

(** The state of the loop: [lines], [current] and [current_y]. *)
Definition group_step (st : list (list Glyph) * list Glyph * Q) (c : Glyph)
  : list (list Glyph) * list Glyph * Q :=
  let '(lines, current, current_y) := st in
  if float_dist_lt_5 (top c) current_y
  then (lines, current ++ [c], current_y)
  else (lines ++ [current], [c], top c).

Definition _group_by_line (cs : list Glyph) : list (list Glyph) :=
  match cs with
  | [] => []
  | _ :: _ =>
      match sorted pair_ltb glyph_key cs with
      | [] => []
      | c0 :: rest =>
          let '(lines, current, _) :=
            fold_left group_step rest ([], [c0], top c0) in
          lines ++ [current]
      end
  end.

(* ------------------------------------------------------------------ *)
(** * _analyze_font_statistics *)
(* ------------------------------------------------------------------ *)

Definition get_fontname (c : Glyph) : pystr :=
  match fontname c with Some f => f | None => [] end.

(** The four updates of [stats[size]] for one character. *)
Definition stat_add (c : Glyph) (st : Stat) : Stat :=
  {| count := count st + 1;
     is_bold := is_bold st || contains (str "bold") (map lower (get_fontname c));
     sample := if len (sample st) <? 50 then sample st ++ text c else sample st;
     positions := positions st ++ [top c];
     frequency := frequency st |}.

Definition analyze_char (acc : dict Stat * Z) (c : Glyph) : dict Stat * Z :=
  let '(stats, total) := acc in
  (defaultdict_update new_stat (stat_add c) stats (round1 (size c)), (total + 1)%Z).

Definition analyze_page (acc : dict Stat * Z) (page : Page) : Exc (dict Stat * Z) :=
  cs <- chars page ;;
  ret (fold_left analyze_char cs acc).

Definition frequency_of (st : Stat) (total : Z) : Q :=
  if (total =? 0)%Z then 0 else inject_Z (count st) / inject_Z total.

Definition _analyze_font_statistics (pdf : Pdf) : Exc (dict Stat) :=
  '(stats, total) <- for_each (pages pdf) analyze_page ([], 0%Z) ;;
  ret (map (fun kv => (fst kv, set_frequency (snd kv) (frequency_of (snd kv) total))) stats).

(* ------------------------------------------------------------------ *)
(** * _identify_heading_fonts *)
(* ------------------------------------------------------------------ *)

(** [f"H{level}"] *)
Definition level_name (level : Z) : pystr := str "H" ++ str_of_int level.

(** [max(stats, key=lambda s: stats[s]['frequency'])] *)
Definition body_size_of (stats : dict Stat) : Exc Q :=
  keyed <- map_exc (fun s => st <- getitem stats s ;; ret (s, frequency st))
                   (dict_keys stats) ;;
  max_by keyed.

(** The body of the loop over the sizes; the state is [headings] and
    [level]. *)
Definition identify_step (self : PDFOutlineExtractor) (stats : dict Stat)
    (body_size : Q) (st : dict pystr * Z) (sz : Q) : Exc (dict pystr * Z) :=
  let '(headings, level) := st in
  stat <- getitem stats sz ;;
  if Qltb (body_size + font_size_threshold self) sz
     && (Qltb (1 # 1000) (frequency stat) && Qltb (frequency stat) (1 # 10))
     && (level <=? 3)%Z
  then ret (dict_set headings sz (level_name level), (level + 1)%Z)
  else ret (headings, level).

Definition _identify_heading_fonts (self : PDFOutlineExtractor) (stats : dict Stat)
  : Exc (dict pystr) :=
  match stats with
  | [] => ret []
  | _ :: _ =>
      body_size <- body_size_of stats ;;
      '(headings, _) <-
        for_each (sorted_reverse Qltb (fun s => s) (dict_keys stats))
                 (identify_step self stats body_size) ([], 1%Z) ;;
      ret headings
  end.

(* ------------------------------------------------------------------ *)
(** * _extract_page_headings *)
(* ------------------------------------------------------------------ *)

(** [Counter(xs)]: the counts, keyed in order of first occurrence. *)
Definition counter (xs : list Q) : dict Z :=
  fold_left (fun d x => defaultdict_update 0%Z Z.succ d x) xs [].

(** [Counter(xs).most_common(1)[0][0]] *)
Definition most_common1 (xs : list Q) : Exc Q :=
  match counter xs with
  | [] => raise IndexError
  | items =>
      best <- max_by (map (fun kv => (kv, inject_Z (snd kv))) items) ;;
      ret (fst best)
  end.

(** [''.join(c['text'] for c in line).strip()] *)
Definition line_text (line : list Glyph) : pystr :=
  strip (join_empty (map text line)).

(** The body of the loop over the lines of a page. *)
Definition heading_of_line (self : PDFOutlineExtractor) (heading_fonts : dict pystr)
    (page_num : Z) (headings : list pydict) (line : list Glyph) : Exc (list pydict) :=
  let t := line_text line in
  if negb (in_bounds self t) then ret headings
  else
    primary_size <- most_common1 (map (fun c => round1 (size c)) line) ;;
    if dict_mem heading_fonts primary_size then
      level <- getitem heading_fonts primary_size ;;
      y <- py_min (map top line) ;;
      ret (headings ++
           [[("level", PStr level);
             ("text", PStr (_clean_heading_text self t));
             ("page", PInt page_num);
             ("y_position", PFloat y);
             ("font_size", PFloat primary_size)]%string])
    else ret headings.

Definition _extract_page_headings (self : PDFOutlineExtractor) (page : Page)
    (heading_fonts : dict pystr) (page_num : Z) : Exc (list pydict) :=
  cs <- chars page ;;
  for_each (_group_by_line cs) (heading_of_line self heading_fonts page_num) [].

(* ------------------------------------------------------------------ *)
(** * _extract_title_from_page *)
(* ------------------------------------------------------------------ *)

(** The score of one line, in the order the source evaluates it, in
    binary64. *)
Definition score_line (page_h page_w : Q) (line : list Glyph) : Exc float :=
  let h := float_of_Q page_h in
  let w := float_of_Q page_w in
  sz <- float_div_int (float_sum (map (fun c => float_of_Q (size c)) line))
                      (Z.of_nat (List.length line)) ;;
  y <- py_min (map top line) ;;
  xmin <- py_min (map x0 line) ;;
  xmax <- py_max (map x1 line) ;;
  let x_center := ((float_of_Q xmin + float_of_Q xmax) / 2)%float in
  a <- float_div (h - float_of_Q y)%float h ;;
  b <- float_div (abs (x_center - w / 2))%float (w / 2)%float ;;
  ret ((sz / 12) * float_0_4 + a * float_0_3 + (1 - b) * float_0_3)%float.

(** The body of the loop over the first lines. *)
Definition candidate_of_line (self : PDFOutlineExtractor) (page_h page_w : Q)
    (candidates : list (pystr * float)) (line : list Glyph)
  : Exc (list (pystr * float)) :=
  let t := line_text line in
  if negb (in_bounds self t) then ret candidates
  else
    score <- score_line page_h page_w line ;;
    ret (candidates ++ [(t, score)]).

Definition _extract_title_from_page (self : PDFOutlineExtractor) (page : Page) : Exc pystr :=
  try_except
    (cs <- chars page ;;
     let lines := firstn 10 (_group_by_line cs) in
     candidates <- for_each lines
                     (candidate_of_line self (height page) (width page)) [] ;;
     match candidates with
     | [] => ret []
     | _ :: _ =>
         best <- max_by_float (map (fun x => (x, snd x)) candidates) ;;
         ret (_clean_title_text self (fst best))
     end)
    (fun _ => ret []).

(* ------------------------------------------------------------------ *)
(** * _extract_title *)
(* ------------------------------------------------------------------ *)

(** The body of the [try] statement. *)
Definition extract_title_try (self : PDFOutlineExtractor) (env : Env) (pdf_path : pystr)
  : Exc pystr :=
  doc <- pymupdf_open env pdf_path ;;
  t <- metadata_title doc ;;
  match t with
  | Some (c :: s) => ret (_clean_title_text self (c :: s))
  | _ =>
      pdf <- pdfplumber_open env pdf_path ;;
      match pages pdf with
      | p0 :: _ => _extract_title_from_page self p0
      | [] => ret []
      end
  end.

Definition _extract_title (self : PDFOutlineExtractor) (env : Env) (pdf_path : pystr)
  : Exc pystr :=
  try_except (extract_title_try self env pdf_path) (fun _ => ret []).

(* ------------------------------------------------------------------ *)
(** * _extract_pymupdf_outline *)
(* ------------------------------------------------------------------ *)

(** The list comprehension over [toc]. *)
Fixpoint toc_outline (self : PDFOutlineExtractor) (toc : list TocEntry) : list pydict :=
  match toc with
  | [] => []
  | (level, txt, page) :: toc' =>
      if (level <=? 3)%Z && truthy (_clean_heading_text self txt)
      then [("level", PStr (level_name level));
            ("text", PStr (_clean_heading_text self txt));
            ("page", PInt page)]%string :: toc_outline self toc'
      else toc_outline self toc'
  end.

(** The body of the [try] statement.  [_clean_title_text(None)] raises
    [AttributeError]. *)
Definition extract_pymupdf_outline_try (self : PDFOutlineExtractor) (env : Env)
    (pdf_path : pystr) : Exc Outline :=
  doc <- pymupdf_open env pdf_path ;;
  toc <- get_toc doc ;;
  t <- metadata_title doc ;;
  ttl <- match t with
         | Some s => ret (_clean_title_text self s)
         | None => raise AttributeError
         end ;;
  ret {| title := ttl; outline := toc_outline self toc |}.

Definition _extract_pymupdf_outline (self : PDFOutlineExtractor) (env : Env)
    (pdf_path : pystr) : Exc Outline :=
  try_except (extract_pymupdf_outline_try self env pdf_path)
             (fun _ => ret empty_outline).

(* ------------------------------------------------------------------ *)
(** * _extract_font_based_outline *)
(* ------------------------------------------------------------------ *)

(** [enumerate(l, n)] *)
Fixpoint enumerate {A} (n : Z) (l : list A) : list (Z * A) :=
  match l with
  | [] => []
  | a :: l' => (n, a) :: enumerate (n + 1) l'
  end.

(** [lambda x: (x["page"], x["y_position"])] *)
Definition outline_sort_key (x : pydict) : Exc (Q * Q) :=
  p <- pydict_get x "page" ;;
  p <- as_number p ;;
  y <- pydict_get x "y_position" ;;
  y <- as_number y ;;
  ret (p, y).

(** [outline.sort(key=...)]: the keys are computed first, one per entry. *)
Definition sort_outline (entries : list pydict) : Exc (list pydict) :=
  keyed <- map_exc (fun x => k <- outline_sort_key x ;; ret (k, x)) entries ;;
  ret (map snd (sorted pair_ltb fst keyed)).

(** The body of the [try] statement. *)
Definition extract_font_based_outline_try (self : PDFOutlineExtractor) (env : Env)
    (pdf_path : pystr) : Exc Outline :=
  pdf <- pdfplumber_open env pdf_path ;;
  font_stats <- _analyze_font_statistics pdf ;;
  heading_fonts <- _identify_heading_fonts self font_stats ;;
  entries <- for_each (enumerate 1 (pages pdf))
               (fun acc ip =>
                  hs <- _extract_page_headings self (snd ip) heading_fonts (fst ip) ;;
                  ret (acc ++ hs)) [] ;;
  ttl <- match pages pdf with
         | p0 :: _ => _extract_title_from_page self p0
         | [] => ret []
         end ;;
  entries <- sort_outline entries ;;
  ret {| title := ttl; outline := entries |}.

Definition _extract_font_based_outline (self : PDFOutlineExtractor) (env : Env)
    (pdf_path : pystr) : Exc Outline :=
  try_except (extract_font_based_outline_try self env pdf_path)
             (fun _ => ret empty_outline).

(* ------------------------------------------------------------------ *)
(** * extract_outline and process_pdfs *)
(* ------------------------------------------------------------------ *)

(** The body of the [try] statement. *)
Definition extract_outline_try (self : PDFOutlineExtractor) (env : Env) (pdf_path : pystr)
  : Exc Outline :=
  o <- _extract_pymupdf_outline self env pdf_path ;;
  o <- match outline o with
       | [] => _extract_font_based_outline self env pdf_path
       | _ :: _ => ret o
       end ;;
  o <- match title o with
       | [] => ttl <- _extract_title self env pdf_path ;;
               ret {| title := ttl; outline := outline o |}
       | _ :: _ => ret o
       end ;;
  ret o.

Definition extract_outline (self : PDFOutlineExtractor) (env : Env) (pdf_path : pystr)
  : Exc Outline :=
  try_except (extract_outline_try self env pdf_path) (fun _ => ret empty_outline).

(** What [process_pdfs] hands to [json.dump] for one input file: the result
    of [extract_outline], or the empty result when it raised. *)
Definition process_pdf (env : Env) (pdf_path : pystr) : Outline :=
  match extract_outline __init__ env pdf_path with
  | inr result => result
  | inl _ => empty_outline
  end.

(** The field names of one JSON object. *)
Definition json_fields (entry : pydict) : list string := map fst entry.

(* ------------------------------------------------------------------ *)
(** * Notions used to state the properties *)
(* ------------------------------------------------------------------ *)

(** A text in which white space occurs only as single blanks between words.
    [after_space] tells whether the previous position was a blank or the start
    of the text. *)
Fixpoint norm_from (after_space : bool) (t : pystr) : bool :=
  match t with
  | [] => negb after_space
  | c :: t' =>
      if is_space c
      then Ascii.eqb c space && negb after_space && norm_from true t'
      else norm_from false t'
  end.

Definition normalized (t : pystr) : Prop := t = [] \/ norm_from true t = true.


(** The longest prefix of characters in a class. *)
Fixpoint take_while (p : ascii -> bool) (s : pystr) : pystr :=
  match s with
  | [] => []
  | c :: s' => if p c then c :: take_while p s' else []
  end.


Definition sum_counts (stats : dict Stat) : Z :=
  fold_right (fun kv acc => (count (snd kv) + acc)%Z) 0%Z stats.

Definition sum_frequencies (stats : dict Stat) : Q :=
  fold_right (fun kv acc => frequency (snd kv) + acc) 0 stats.

(** The keys of a dictionary are pairwise different numbers. *)
Fixpoint distinct_keys (ks : list Q) : bool :=
  match ks with
  | [] => true
  | k :: ks' => forallb (fun k' => negb (Qeq_bool k k')) ks' && distinct_keys ks'
  end.

(** The three level labels, in order. *)
Definition level_names : list pystr := [str "H1"; str "H2"; str "H3"].

(** The test a size passes to become a heading size. *)
Definition heading_cond (self : PDFOutlineExtractor) (stats : dict Stat)
    (body_size sz : Q) : Prop :=
  exists st,
    dict_get stats sz = Some st
    /\ body_size + font_size_threshold self < sz
    /\ 1 # 1000 < frequency st
    /\ frequency st < 1 # 10.

(** What the loop of [_identify_heading_fonts] maintains, [ks] being the
    sizes still to visit. *)
Definition identify_inv (self : PDFOutlineExtractor) (stats : dict Stat)
    (body_size : Q) (ks : list Q) (st : dict pystr * Z) : Prop :=
  snd st = (Z.of_nat (List.length (fst st)) + 1)%Z
  /\ (List.length (fst st) <= 3)%nat
  /\ map snd (fst st) = firstn (List.length (fst st)) level_names
  /\ StronglySorted (fun a b => b < a) (map fst (fst st))
  /\ Forall (fun h => Forall (fun k => k < h) ks) (map fst (fst st))
  /\ Forall (fun kv => heading_cond self stats body_size (fst kv)) (fst st).

(** The least and the greatest element of a non-empty sequence. *)
Definition min_of (xs : list Q) : Q :=
  match xs with
  | [] => 0
  | x :: xs' => fold_left (fun m y => if Qltb y m then y else m) xs' x
  end.

Definition max_of (xs : list Q) : Q :=
  match xs with
  | [] => 0
  | x :: xs' => fold_left (fun m y => if Qltb m y then y else m) xs' x
  end.

(** The lines the title scorer looks at: those of the first ten lines whose
    text passes the length test. *)
Definition title_lines (self : PDFOutlineExtractor) (cs : list Glyph)
  : list (list Glyph) :=
  filter (fun line => in_bounds self (line_text line)) (firstn 10 (_group_by_line cs)).

(** The average font size of a line and the centre of its horizontal
    extent, in binary64. *)
Definition avg_size (line : list Glyph) : float :=
  (float_sum (map (fun c => float_of_Q (size c)) line)
   / float_of_Z (Z.of_nat (List.length line)))%float.

Definition x_center_of (line : list Glyph) : float :=
  ((float_of_Q (min_of (map x0 line)) + float_of_Q (max_of (map x1 line))) / 2)%float.

(** The score of a line as the design states it, in binary64. *)
Definition title_score (page_h page_w : Q) (line : list Glyph) : float :=
  let h := float_of_Q page_h in
  let w := float_of_Q page_w in
  (float_0_4 * (avg_size line / 12)
   + float_0_3 * ((h - float_of_Q (min_of (map top line))) / h)
   + float_0_3 * (1 - abs (x_center_of line - w / 2) / (w / 2)))%float.

(** The score has a value on a page of these dimensions: neither the height
    nor half the width is the float zero. *)
Definition score_defined (page_h page_w : Q) : bool :=
  negb (float_of_Q page_h =? 0)%float
  && negb (float_of_Q page_w / 2 =? 0)%float.

(** A key that orders the floats that are numbers as [<?] and [<=?] do:
    compared lexicographically. *)
Definition float_key (x : spec_float) : Z * Z * Z :=
  match x with
  | S754_zero _ => (0, 0, 0)
  | S754_infinity s => if s then (-2, 0, 0) else (2, 0, 0)
  | S754_nan => (3, 0, 0)
  | S754_finite s m e => if s then (-1, - e, - Zpos m) else (1, e, Zpos m)
  end%Z.

Definition lex_compare (a b : Z * Z * Z) : comparison :=
  let '(a1, a2, a3) := a in
  let '(b1, b2, b3) := b in
  match (a1 ?= b1)%Z with
  | Eq => match (a2 ?= b2)%Z with Eq => (a3 ?= b3)%Z | c => c end
  | c => c
  end.

(** An entry of the table of contents is kept, and what it becomes. *)
Definition toc_kept (self : PDFOutlineExtractor) (e : TocEntry) : bool :=
  let '(level, txt, _) := e in
  (level <=? 3)%Z && negb (is_nil (_clean_heading_text self txt)).

Definition toc_entry (self : PDFOutlineExtractor) (e : TocEntry) : pydict :=
  let '(level, txt, page) := e in
  [("level"%string, PStr (str "H" ++ str_of_int level));
   ("text"%string, PStr (_clean_heading_text self txt));
   ("page"%string, PInt page)].

(* ------------------------------------------------------------------ *)
(** * Sample documents *)
(* ------------------------------------------------------------------ *)

(** The [i]-th character of a line set at height [y] in size [sz]. *)
Definition glyph_at (sz y : Q) (i : nat) (c : ascii) : Glyph :=
  {| text := [c];
     x0 := inject_Z (Z.of_nat i) * 6 + 100;
     x1 := inject_Z (Z.of_nat i) * 6 + 106;
     top := y;
     size := sz;
     fontname := Some (str "Helvetica") |}.

Fixpoint glyphs_of (sz y : Q) (i : nat) (s : pystr) : list Glyph :=
  match s with
  | [] => []
  | c :: s' => glyph_at sz y i c :: glyphs_of sz y (S i) s'
  end.

(** A page with one line of a hundred characters of body text in size 10 and,
    above it, one line in size 16. *)
Definition sample_page (heading : pystr) : Page :=
  {| chars := inr (glyphs_of 10 100 0 (repeat "x"%char 100)
                   ++ glyphs_of 16 50 0 heading);
     height := 800;
     width := 600 |}.

Definition sample_pdf (heading : pystr) : Pdf := {| pages := [sample_page heading] |}.

(** A readable file without table of contents and without title. *)
Definition sample_env (heading : pystr) : Env :=
  {| pymupdf_open := fun _ => inr {| get_toc := inr []; metadata_title := inr (Some []) |};
     pdfplumber_open := fun _ => inr (sample_pdf heading) |}.

(** A file with a table of contents of two entries. *)
Definition sample_toc : list TocEntry :=
  [(1%Z, str "Intro", 1%Z); (2%Z, str "Background", 2%Z)].

Definition sample_toc_doc : MuDoc :=
  {| get_toc := inr sample_toc; metadata_title := inr (Some (str "Report")) |}.

Definition sample_toc_env : Env :=
  {| pymupdf_open := fun _ => inr sample_toc_doc;
     pdfplumber_open := fun _ => inl (LibraryError "not needed") |}.

(** A file neither library can open. *)
Definition unreadable_env : Env :=
  {| pymupdf_open := fun _ => inl (LibraryError "cannot open");
     pdfplumber_open := fun _ => inl (LibraryError "cannot open") |}.

(** Statistics with body text in size 10 and two larger sizes. *)
Definition sample_stats : dict Stat :=
  [(10, set_frequency new_stat (8 # 10));
   (14, set_frequency new_stat (5 # 100));
   (16, set_frequency new_stat (2 # 100));
   (11, set_frequency new_stat (13 # 100))].

(* ------------------------------------------------------------------ *)
(** * Notions used for the further properties *)
(* ------------------------------------------------------------------ *)

(** The order in which Python puts pairs of numbers: [a <= b]. *)
Definition pair_le (a b : Q * Q) : Prop :=
  fst a < fst b \/ (fst a == fst b /\ snd a <= snd b).

(** The vertical position a line is anchored at: that of its first
    character. *)
Definition anchor (line : list Glyph) : Q :=
  match line with
  | c :: _ => top c
  | [] => 0
  end.

(** Every character of the line is less than [line_gap] from the anchor:
    the difference the source computes is below 5. *)
Definition near_anchor (line : list Glyph) : Prop :=
  Forall (fun c => Qabs (top c - anchor line) < line_gap) line.

(** Each number of the sequence is at least [line_gap] away from the one
    before: the difference the source computes is 5 or more. *)
Fixpoint apart_chain (ys : list Q) : Prop :=
  match ys with
  | [] => True
  | y1 :: t =>
      match t with
      | [] => True
      | y2 :: _ => line_gap <= Qabs (y2 - y1) /\ apart_chain t
      end
  end.

(** Characters of width 6 from the abscissa [x] on. *)
Fixpoint glyphs_from (sz y x : Q) (s : pystr) : list Glyph :=
  match s with
  | [] => []
  | c :: s' =>
      {| text := [c]; x0 := x; x1 := x + 6; top := y; size := sz;
         fontname := Some (str "Helvetica") |}
      :: glyphs_from sz y (x + 6) s'
  end.

(** Two lines on a page of 900 by 600 whose scores are the same real
    number, 29/30; in binary64 they are 0.9666666666666666 for the first
    and 0.9666666666666668 for the second. *)
Definition tie_first : list Glyph := glyphs_from 12 0 388 (str "AAAA").
Definition tie_second : list Glyph := glyphs_from 14 200 438 (str "BBBB").

Definition tie_page : Page :=
  {| chars := inr (tie_first ++ tie_second); height := 600; width := 900 |}.

(** The floats written [0.3] and [5.3], and two characters at these
    heights. *)
Definition top_0_3 : Q := 5404319552844595 # 18014398509481984.
Definition top_5_3 : Q := 5967269506265907 # 1125899906842624.

Definition close_glyphs : list Glyph :=
  [glyph_at 12 top_0_3 0 "a"%char; glyph_at 12 top_5_3 1 "b"%char].

(** An entry of the outline has the two sort keys. *)
Definition has_sort_key (x : pydict) : Prop :=
  exists k, outline_sort_key x = inr k.

(** A heading entry as the font-based stage builds it. *)
Definition font_entry (level txt : pystr) (page : Z) (y sz : Q) : pydict :=
  [("level"%string, PStr level);
   ("text"%string, PStr txt);
   ("page"%string, PInt page);
   ("y_position"%string, PFloat y);
   ("font_size"%string, PFloat sz)].

(** The characters of a sequence whose rounded size is the key [k]. *)
Definition glyphs_at (k : Q) (gs : list Glyph) : list Glyph :=
  filter (fun c => Qeq_bool k (round1 (size c))) gs.

(** ['bold' in font.lower()] for the font of a character. *)
Definition bold_font (c : Glyph) : bool :=
  contains (str "bold") (map lower (get_fontname c)).

(** The sample kept for the characters [G] of one size: the text of all of
    them, or the text of the first few once that reaches 50 characters. *)
Definition sample_ok (G : list Glyph) (s : pystr) : Prop :=
  s = List.concat (map text G)
  \/ ((50 <= len s)%nat
      /\ exists j, (j <= List.length G)%nat /\ s = List.concat (map text (firstn j G))).

(** What the statistics hold for the characters [G] of one size. *)
Definition stat_ok (G : list Glyph) (st : Stat) : Prop :=
  count st = Z.of_nat (List.length G)
  /\ positions st = map top G
  /\ is_bold st = existsb bold_font G
  /\ sample_ok G (sample st).

(** What the dictionary of [_analyze_font_statistics] holds once the
    characters [seen] are read. *)
Definition stats_inv (stats : dict Stat) (seen : list Glyph) : Prop :=
  distinct_keys (dict_keys stats) = true
  /\ forall k, match dict_get stats k with
               | None => glyphs_at k seen = []
               | Some st => glyphs_at k seen <> [] /\ stat_ok (glyphs_at k seen) st
               end.

(** A size passes the test of the classifier, the level count apart. *)
Definition qualifies (self : PDFOutlineExtractor) (stats : dict Stat)
    (body_size sz : Q) : bool :=
  match dict_get stats sz with
  | Some st =>
      Qltb (body_size + font_size_threshold self) sz
      && (Qltb (1 # 1000) (frequency st) && Qltb (frequency st) (1 # 10))
  | None => false
  end.

(** The number of elements of [xs] equal to [k]. *)
Definition occurrences (k : Q) (xs : list Q) : Z :=
  Z.of_nat (List.length (filter (fun x => Qeq_bool x k) xs)).

(** What [Counter(xs)] holds once the elements [seen] are read. *)
Definition counter_inv (d : dict Z) (seen : list Q) : Prop :=
  distinct_keys (dict_keys d) = true
  /\ (forall k, In k (dict_keys d) -> In k seen)
  /\ forall k, match dict_get d k with
               | None => occurrences k seen = 0%Z
               | Some n => n = occurrences k seen /\ (0 < n)%Z
               end.

(** The entry the page heading extractor builds from one of the lines. *)
Definition heading_from (self : PDFOutlineExtractor) (heading_fonts : dict pystr)
    (page_num : Z) (lines : list (list Glyph)) (d : pydict) : Prop :=
  exists line level sz,
    In line lines
    /\ in_bounds self (line_text line) = true
    /\ most_common1 (map (fun c => round1 (size c)) line) = inr sz
    /\ dict_get heading_fonts sz = Some level
    /\ d = font_entry level (_clean_heading_text self (line_text line)) page_num
                      (min_of (map top line)) sz.

(** Rounded sizes of the characters of a line; [160 # 10] and [16] are the
    same number. *)
Definition sample_sizes : list Q := [14; 16; 160 # 10; 14; 16].

(** An entry of the font-based outline of a document of [npages] pages. *)
Definition font_entry_ok (self : PDFOutlineExtractor) (npages : Z) (d : pydict) : Prop :=
  exists level txt page y sz,
    d = font_entry level txt page y sz
    /\ In level level_names
    /\ (1 <= page <= npages)%Z
    /\ (len txt <= max_heading_chars self)%nat.

(** The letters after the dot of a file name the title cleaner removes, in
    any case. *)
Definition file_extension (e : pystr) : Prop :=
  map lower e = str "pdf" \/ map lower e = str "doc" \/ map lower e = str "docx".

(** A page [pdfplumber] cannot read, and a file that has one. *)
Definition damaged_page : Page :=
  {| chars := inl (LibraryError "damaged page"); height := 800; width := 600 |}.

Definition damaged_pdf : Pdf := {| pages := [sample_page (str "Intro"); damaged_page] |}.

Definition damaged_env : Env :=
  {| pymupdf_open := fun _ => inl (LibraryError "cannot open");
     pdfplumber_open := fun _ => inr damaged_pdf |}.

(** A file whose characters all have size 12. *)
Definition flat_pdf : Pdf :=
  {| pages := [{| chars := inr (glyphs_of 12 40 0 (str "All the same"));
                  height := 800; width := 600 |}] |}.

Definition flat_env : Env :=
  {| pymupdf_open := fun _ => inl (LibraryError "cannot open");
     pdfplumber_open := fun _ => inr flat_pdf |}.

(* ================================================================== *)
(** * Properties of the text cleaners *)
(* ================================================================== *)

Example clean_heading_ws :
  _clean_heading_text __init__ (str "  SECTION  2   Two   words  ") = str "Two words".
Proof. reflexivity. Qed.

Example clean_title_pdf :
  _clean_title_text __init__ (str " My  report.PDF ") = str "My report".
Proof. reflexivity. Qed.


Lemma is_space_space : is_space space = true.
Proof. reflexivity. Qed.

Lemma take_drop_while p s : s = take_while p s ++ drop_while p s.
Proof.
  induction s as [|c s IH]; simpl; [reflexivity|].
  destruct (p c); simpl; [now rewrite <- IH | reflexivity].
Qed.


Lemma drop_while_head p s c r : drop_while p s = c :: r -> p c = false.
Proof.
  induction s as [|a s IH]; simpl; [discriminate|].
  destruct (p a) eqn:E; [exact IH|].
  intros H; injection H as -> _; exact E.
Qed.

Lemma drop_while_suffix p s : exists u, s = u ++ drop_while p s.
Proof. exists (take_while p s). apply take_drop_while. Qed.


Lemma match_ci_suffix kw : forall s r, match_ci kw s = Some r -> exists u, s = u ++ r.
Proof.
  induction kw as [|k kw IH]; simpl; intros s r H.
  - injection H as ->. now exists [].
  - destruct s as [|c s]; [discriminate|].
    destruct (Ascii.eqb (lower c) k); [|discriminate].
    destruct (IH _ _ H) as [u ->]. now exists (c :: u).
Qed.

Lemma match_ordinal_word_suffix s r :
  match_ordinal_word s = Some r -> exists u, s = u ++ r.
Proof.
  unfold match_ordinal_word.
  destruct (match_ci (str "chapter") s) eqn:E1.
  - intros H; injection H as <-. eapply match_ci_suffix; eauto.
  - destruct (match_ci (str "section") s) eqn:E2.
    + intros H; injection H as <-. eapply match_ci_suffix; eauto.
    + apply match_ci_suffix.
Qed.

Lemma drop_dot_suffix s : exists u, s = u ++ drop_dot s.
Proof.
  destruct s as [|c s]; simpl; [now exists []|].
  destruct (Ascii.eqb c "."); [now exists [c] | now exists []].
Qed.

(** What the prefix pattern leaves is the end of the text, and it does not
    start with white space when something was removed. *)
Lemma sub_ordinal_prefix_suffix s :
  exists u, s = u ++ sub_ordinal_prefix s /\
            (u = [] \/ forall c r, sub_ordinal_prefix s = c :: r -> is_space c = false).
Proof.
  unfold sub_ordinal_prefix.
  destruct (match_ordinal_word s) as [r|] eqn:E.
  - destruct (match_ordinal_word_suffix _ E) as [u0 ->].
    destruct (drop_while_suffix is_space r) as [u1 E1].
    destruct (drop_while_suffix is_digit (drop_while is_space r)) as [u2 E2].
    destruct (drop_dot_suffix (drop_while is_digit (drop_while is_space r))) as [u3 E3].
    destruct (drop_while_suffix is_space
                (drop_dot (drop_while is_digit (drop_while is_space r)))) as [u4 E4].
    exists (u0 ++ u1 ++ u2 ++ u3 ++ u4). split.
    + rewrite E1 at 1. rewrite E2 at 1. rewrite E3 at 1. rewrite E4 at 1.
      now rewrite <- !app_assoc.
    + right. intros c r'. apply drop_while_head.
  - exists []. now split; [|left].
Qed.

Lemma sub_ordinal_prefix_len s : (len (sub_ordinal_prefix s) <= len s)%nat.
Proof.
  destruct (sub_ordinal_prefix_suffix s) as [u [E _]].
  rewrite E at 2. unfold len. rewrite length_app. lia.
Qed.

(** What the trailing pattern leaves is the start of the text, and what it
    removes starts with white space. *)
Lemma sub_trailing_number_prefix s :
  exists v, s = sub_trailing_number s ++ v /\
            (v = [] \/ match_trailing_number v = true).
Proof.
  induction s as [|c s IH].
  - exists []. now split; [|left].
  - cbn [sub_trailing_number].
    destruct (match_trailing_number (c :: s)) eqn:E.
    + exists (c :: s). now split; [|right].
    + destruct IH as [v [E1 E2]]. exists v. split; [|exact E2].
      simpl. now rewrite <- E1.
Qed.

Lemma sub_trailing_number_len s : (len (sub_trailing_number s) <= len s)%nat.
Proof.
  destruct (sub_trailing_number_prefix s) as [v [E _]].
  rewrite E at 2. unfold len. rewrite length_app. lia.
Qed.

Lemma match_trailing_number_head v :
  match_trailing_number v = true -> exists c r, v = c :: r /\ is_space c = true.
Proof.
  destruct v as [|c r]; [discriminate|].
  unfold match_trailing_number. intros H.
  apply andb_true_iff in H. destruct H as [H _]. now exists c, r.
Qed.

(** ** White-space normal form *)

Lemma norm_from_word b w r :
  w <> [] -> forallb (fun c => negb (is_space c)) w = true ->
  norm_from b (w ++ r) = norm_from false r.
Proof.
  revert b. induction w as [|c w IH]; intros b Hne Hw; [congruence|].
  simpl in Hw. apply andb_true_iff in Hw. destruct Hw as [Hc Hw].
  apply negb_true_iff in Hc. simpl. rewrite Hc.
  destruct w as [|c' w']; [reflexivity|].
  apply IH; [discriminate | exact Hw].
Qed.

Lemma forallb_rev_eq (p : ascii -> bool) l : forallb p (rev l) = forallb p l.
Proof.
  induction l as [|a l IH]; [reflexivity|].
  simpl. rewrite forallb_app, IH. simpl.
  rewrite andb_true_r. apply andb_comm.
Qed.

Lemma split_from_words s : forall cur,
  forallb (fun c => negb (is_space c)) cur = true ->
  Forall (fun w => w <> [] /\ forallb (fun c => negb (is_space c)) w = true)
         (split_from cur s).
Proof.
  induction s as [|c s IH]; intros cur Hcur; simpl.
  - destruct cur as [|a cur']; constructor; [|constructor].
    split.
    + intros E. apply (f_equal (@List.length _)) in E.
      rewrite length_rev in E. discriminate.
    + rewrite forallb_rev_eq. exact Hcur.
  - destruct (is_space c) eqn:Ec.
    + destruct cur as [|a cur']; [now apply IH|].
      constructor; [|now apply IH].
      split.
      * intros E. apply (f_equal (@List.length _)) in E.
        rewrite length_rev in E. discriminate.
      * rewrite forallb_rev_eq. exact Hcur.
    + apply IH. simpl. now rewrite Ec.
Qed.

Lemma join_words_norm ws :
  Forall (fun w => w <> [] /\ forallb (fun c => negb (is_space c)) w = true) ws ->
  ws <> [] -> norm_from true (join ws) = true.
Proof.
  induction 1 as [|w ws [Hne Hw] Hws IH]; intros Hnil; [congruence|].
  destruct ws as [|w' ws'].
  - simpl. rewrite <- (app_nil_r w). now rewrite norm_from_word.
  - change (join (w :: w' :: ws')) with (w ++ space :: join (w' :: ws')).
    rewrite norm_from_word by assumption.
    cbn [norm_from]. rewrite is_space_space. rewrite IH by discriminate.
    reflexivity.
Qed.

Lemma join_split_normalized s : normalized (join (split s)).
Proof.
  unfold normalized, split.
  destruct (split_from [] s) as [|w ws] eqn:E; [now left|].
  right. rewrite <- E. apply join_words_norm.
  - now apply split_from_words.
  - rewrite E. discriminate.
Qed.

Lemma join_split_from_id t : forall cur,
  norm_from (is_nil cur) t = true -> join (split_from cur t) = rev cur ++ t.
Proof.
  induction t as [|c t IH]; intros cur H.
  - simpl in H. destruct cur as [|a cur']; [discriminate|].
    simpl. now rewrite app_nil_r.
  - cbn [norm_from] in H. cbn [split_from].
    destruct (is_space c) eqn:Ec.
    + apply andb_true_iff in H. destruct H as [H Ht].
      apply andb_true_iff in H. destruct H as [Hc Hcur].
      apply Ascii.eqb_eq in Hc. subst c.
      destruct cur as [|a cur']; [discriminate|].
      specialize (IH [] Ht). simpl in IH.
      destruct (split_from [] t) as [|w ws] eqn:Es.
      * simpl in IH. subst t. discriminate.
      * change (join (rev (a :: cur') :: w :: ws))
          with (rev (a :: cur') ++ space :: join (w :: ws)).
        now rewrite IH.
    + rewrite (IH (c :: cur)) by exact H.
      simpl. now rewrite <- app_assoc.
Qed.

Lemma join_split_id t : normalized t -> join (split t) = t.
Proof.
  intros [-> | H]; [reflexivity|].
  unfold split. now rewrite join_split_from_id.
Qed.

Lemma norm_from_suffix u : forall b v c r,
  norm_from b (u ++ v) = true -> v = c :: r -> is_space c = false ->
  norm_from true v = true.
Proof.
  induction u as [|a u IH]; intros b v c r H -> Hc.
  - simpl in *. now rewrite Hc in *.
  - simpl in H. destruct (is_space a).
    + apply andb_true_iff in H. destruct H as [_ H]. eapply IH; eauto.
    + eapply IH; eauto.
Qed.

Lemma norm_from_prefix r : forall b c v,
  norm_from b (r ++ c :: v) = true -> is_space c = true -> norm_from b r = true.
Proof.
  induction r as [|a r IH]; intros b c v H Hc.
  - simpl in *. rewrite Hc in H.
    apply andb_true_iff in H. destruct H as [H _].
    apply andb_true_iff in H. destruct H as [_ H]. exact H.
  - simpl in *. destruct (is_space a).
    + apply andb_true_iff in H. destruct H as [H1 H].
      rewrite H1. simpl. eapply IH; eauto.
    + eapply IH; eauto.
Qed.

Lemma sub_ordinal_prefix_normalized t :
  normalized t -> normalized (sub_ordinal_prefix t).
Proof.
  intros [-> | H]; [now left|].
  destruct (sub_ordinal_prefix_suffix t) as [u [E [-> | Hhd]]].
  - simpl in E. rewrite <- E. now right.
  - destruct (sub_ordinal_prefix t) as [|c r] eqn:Er; [now left|].
    right. rewrite E in H. eapply norm_from_suffix; eauto.
Qed.

Lemma sub_trailing_number_normalized t :
  normalized t -> normalized (sub_trailing_number t).
Proof.
  intros [-> | H]; [now left|].
  destruct (sub_trailing_number_prefix t) as [v [E [-> | Hm]]].
  - rewrite app_nil_r in E. rewrite <- E. now right.
  - destruct (match_trailing_number_head _ Hm) as [c [r [-> Hc]]].
    right. rewrite E in H. eapply norm_from_prefix; eauto.
Qed.

Lemma clean_heading_text_normalized self s :
  normalized (_clean_heading_text self s).
Proof.
  unfold _clean_heading_text.
  destruct (in_bounds self (sub_ordinal_prefix (join (split s)))); [|now left].
  apply sub_trailing_number_normalized, sub_ordinal_prefix_normalized,
    join_split_normalized.
Qed.

(** ** The trailing page number on normal forms *)









Lemma clean_heading_text_upper self s :
  (len (_clean_heading_text self s) <= max_heading_chars self)%nat.
Proof.
  unfold _clean_heading_text, in_bounds.
  destruct (min_heading_chars self <=? _)%nat; simpl; [|lia].
  destruct (len (sub_ordinal_prefix (join (split s))) <=? max_heading_chars self)%nat
    eqn:E; simpl; [|lia].
  apply Nat.leb_le in E.
  pose proof (sub_trailing_number_len (sub_ordinal_prefix (join (split s)))). lia.
Qed.


(** C3: on ["ab 12"] the length test passes on the five characters read
    before the trailing number is removed, and the two characters that remain
    are returned although they are below the lower bound. *)
Theorem clean_heading_text_below_bound :
  _clean_heading_text __init__ (str "ab 12") = str "ab"
  /\ in_bounds __init__ (_clean_heading_text __init__ (str "ab 12")) = false
  /\ _clean_heading_text __init__ (str "ab 12") <> [].
Proof.
  repeat split; try reflexivity. discriminate.
Qed.




(* ================================================================== *)
(** * Sorting and the line reconstructor *)
(* ================================================================== *)

Section SortingFacts.
Variables (A K : Type) (lt : K -> K -> bool) (key : A -> K).

Lemma insert_sorted_perm x l :
  Permutation (insert_sorted lt key x l) (x :: l).
Proof.
  induction l as [|y l IH]; simpl; [reflexivity|].
  destruct (lt (key y) (key x)); [|reflexivity].
  rewrite IH. apply perm_swap.
Qed.

Lemma sorted_perm l : Permutation (sorted lt key l) l.
Proof.
  induction l as [|x l IH]; simpl; [reflexivity|].
  rewrite insert_sorted_perm. now constructor.
Qed.

Lemma sorted_reverse_perm l : Permutation (sorted_reverse lt key l) l.
Proof.
  unfold sorted_reverse.
  rewrite <- Permutation_rev, sorted_perm. symmetry. apply Permutation_rev.
Qed.
End SortingFacts.

(** The loop of [_group_by_line] only cuts the sorted sequence: the closed
    lines followed by the current one always spell what was read so far. *)
Lemma group_step_flat rest : forall lines current y,
  let r := fold_left group_step rest (lines, current, y) in
  List.concat (fst (fst r)) ++ snd (fst r) = List.concat lines ++ current ++ rest.
Proof.
  induction rest as [|c rest IH]; intros lines current y; cbn zeta in *.
  - simpl. now rewrite app_nil_r.
  - cbn [fold_left group_step].
    destruct (float_dist_lt_5 (top c) y).
    + rewrite (IH lines (current ++ [c]) y). now rewrite <- app_assoc.
    + rewrite (IH (lines ++ [current]) [c] (top c)).
      rewrite concat_app. simpl.
      now rewrite app_nil_r, <- app_assoc.
Qed.

Lemma group_step_nonempty rest : forall lines current y,
  Forall (fun l => l <> []) lines -> current <> [] ->
  let r := fold_left group_step rest (lines, current, y) in
  Forall (fun l => l <> []) (fst (fst r)) /\ snd (fst r) <> [].
Proof.
  induction rest as [|c rest IH]; intros lines current y Hl Hc; cbn zeta in *.
  - now split.
  - cbn [fold_left group_step].
    destruct (float_dist_lt_5 (top c) y).
    + apply IH; [exact Hl|]. now destruct current.
    + apply IH; [|discriminate].
      apply Forall_app. split; [exact Hl|]. now constructor.
Qed.

(** The lines, read one after the other, are the sorted characters. *)
Lemma group_by_line_concat cs :
  List.concat (_group_by_line cs) = sorted pair_ltb glyph_key cs.
Proof.
  unfold _group_by_line.
  destruct cs as [|c cs]; [reflexivity|].
  destruct (sorted pair_ltb glyph_key (c :: cs)) as [|c0 rest] eqn:E.
  - reflexivity.
  - pose proof (group_step_flat rest [] [c0] (top c0)) as H.
    destruct (fold_left group_step rest ([], [c0], top c0)) as [[lines current] y].
    simpl in H. rewrite concat_app. simpl. rewrite app_nil_r. exact H.
Qed.

Lemma group_by_line_nonempty cs : Forall (fun l => l <> []) (_group_by_line cs).
Proof.
  unfold _group_by_line.
  destruct cs as [|c cs]; [constructor|].
  destruct (sorted pair_ltb glyph_key (c :: cs)) as [|c0 rest] eqn:E; [constructor|].
  pose proof (@group_step_nonempty rest [] [c0] (top c0)) as H.
  destruct (fold_left group_step rest ([], [c0], top c0)) as [[lines current] y].
  simpl in H. destruct H as [Hl Hc]; [constructor | discriminate |].
  apply Forall_app. split; [exact Hl|]. now constructor.
Qed.

(** C7: the lines of [_group_by_line] partition the characters they are
    given: read one after the other they are a rearrangement of the input,
    so no character is lost, none occurs twice and no two lines share one;
    every line holds a character; and no character gives no line. *)
Theorem group_by_line_partition :
  forall cs : list Glyph,
    Permutation (List.concat (_group_by_line cs)) cs
    /\ Forall (fun line => line <> []) (_group_by_line cs)
    /\ _group_by_line [] = [].
Proof.
  intros cs. split; [|split].
  - rewrite group_by_line_concat. apply sorted_perm.
  - apply group_by_line_nonempty.
  - reflexivity.
Qed.

(* ================================================================== *)
(** * The font statistics *)
(* ================================================================== *)

Lemma defaultdict_update_counts c k : forall d,
  sum_counts (defaultdict_update new_stat (stat_add c) d k) = (sum_counts d + 1)%Z.
Proof.
  induction d as [|[k' v] d IH]; simpl; [reflexivity|].
  destruct (Qeq_bool k' k); simpl; [lia|].
  rewrite IH. lia.
Qed.

Lemma analyze_chars_counts cs : forall stats total,
  let r := fold_left analyze_char cs (stats, total) in
  sum_counts (fst r) = (sum_counts stats + Z.of_nat (List.length cs))%Z
  /\ snd r = (total + Z.of_nat (List.length cs))%Z.
Proof.
  induction cs as [|c cs IH]; intros stats total; cbn zeta in *.
  - simpl. lia.
  - cbn [fold_left analyze_char].
    destruct (IH (defaultdict_update new_stat (stat_add c) stats (round1 (size c)))
                 (total + 1)%Z) as [H1 H2].
    rewrite H1, H2, defaultdict_update_counts.
    cbn [List.length]. lia.
Qed.

Lemma analyze_pages_fold ps : forall css acc,
  map_exc chars ps = inr css ->
  for_each ps analyze_page acc = inr (fold_left analyze_char (List.concat css) acc).
Proof.
  induction ps as [|p ps IH]; intros css acc H; simpl in *.
  - injection H as <-. reflexivity.
  - unfold analyze_page at 1.
    destruct (chars p) as [e|cs]; [discriminate|]. simpl in *.
    destruct (map_exc chars ps) as [e|css']; [discriminate|]. simpl in H.
    injection H as <-. simpl.
    rewrite fold_left_app. now apply IH.
Qed.

Lemma sum_counts_set total : forall stats,
  sum_counts
    (map (fun kv => (fst kv, set_frequency (snd kv) (frequency_of (snd kv) total))) stats)
  = sum_counts stats.
Proof.
  induction stats as [|[k st] stats IH]; simpl; [reflexivity|].
  now rewrite IH.
Qed.

Lemma sum_frequencies_set total : forall stats,
  (total <> 0)%Z ->
  sum_frequencies
    (map (fun kv => (fst kv, set_frequency (snd kv) (frequency_of (snd kv) total))) stats)
  == inject_Z (sum_counts stats) / inject_Z total.
Proof.
  intros stats Ht.
  assert (Hq : ~ inject_Z total == 0).
  { intros H. apply Ht. unfold Qeq in H. simpl in H. lia. }
  induction stats as [|[k st] stats IH]; simpl.
  - field. exact Hq.
  - rewrite IH. unfold frequency_of.
    destruct (Z.eqb_spec total 0); [contradiction|].
    rewrite inject_Z_plus. field. exact Hq.
Qed.

(** C8: when every page gives its characters, [_analyze_font_statistics]
    returns the statistics; the frequency stored for each size is its count
    divided by the number of characters of the document (0 when there is
    none); the counts add up to that number; with at least one character the
    frequencies add up to 1, and with none every frequency is 0.  Numbers are
    rationals, so the sum is exactly 1. *)
Theorem analyze_font_statistics_frequencies :
  forall (pdf : Pdf) (css : list (list Glyph)),
    map_exc chars (pages pdf) = inr css ->
    let total := Z.of_nat (List.length (List.concat css)) in
    exists stats,
      _analyze_font_statistics pdf = inr stats
      /\ (forall k st, In (k, st) stats ->
            frequency st = if (total =? 0)%Z then 0
                           else inject_Z (count st) / inject_Z total)
      /\ sum_counts stats = total
      /\ ((0 < total)%Z -> sum_frequencies stats == 1)
      /\ (total = 0%Z -> forall k st, In (k, st) stats -> frequency st == 0).
Proof.
  intros pdf css Hcs total.
  unfold _analyze_font_statistics.
  rewrite (analyze_pages_fold _ ([], 0%Z) Hcs).
  destruct (fold_left analyze_char (List.concat css) ([], 0%Z)) as [stats tot] eqn:E.
  assert (Hsum : sum_counts stats = total).
  { change stats with (fst (stats, tot)). rewrite <- E.
    exact (proj1 (analyze_chars_counts (List.concat css) [] 0%Z)). }
  assert (Htot : tot = total).
  { change tot with (snd (stats, tot)). rewrite <- E.
    exact (proj2 (analyze_chars_counts (List.concat css) [] 0%Z)). }
  subst tot. clear E.
  cbn [bind ret].
  eexists. split; [reflexivity|].
  assert (Hfreq : forall k st,
            In (k, st) (map (fun kv => (fst kv,
                 set_frequency (snd kv) (frequency_of (snd kv) total))) stats) ->
            frequency st = if (total =? 0)%Z then 0
                           else inject_Z (count st) / inject_Z total).
  { intros k st Hin. apply in_map_iff in Hin.
    destruct Hin as [[k' st'] [E _]]. simpl in E. injection E as _ <-.
    reflexivity. }
  split; [exact Hfreq|]. split; [|split].
  - rewrite sum_counts_set. exact Hsum.
  - intros Hpos. rewrite sum_frequencies_set by lia.
    rewrite Hsum. field. intros H. unfold Qeq in H. simpl in H. lia.
  - intros H0 k st Hin. rewrite (Hfreq k st Hin), H0. reflexivity.
Qed.

(* ================================================================== *)
(** * The heading font classifier *)
(* ================================================================== *)

Lemma Qltb_lt x y : Qltb x y = true <-> x < y.
Proof.
  unfold Qltb. rewrite negb_true_iff. split.
  - intros H. apply Qnot_le_lt. intros Hle.
    apply Qle_bool_iff in Hle. congruence.
  - intros H. destruct (Qle_bool y x) eqn:E; [|reflexivity].
    apply Qle_bool_iff in E. exfalso. exact (Qlt_not_le _ _ H E).
Qed.

Lemma Qltb_ge x y : Qltb x y = false <-> y <= x.
Proof.
  unfold Qltb. rewrite negb_false_iff. apply Qle_bool_iff.
Qed.

Lemma distinct_keys_NoDupA ks : distinct_keys ks = true -> NoDupA Qeq ks.
Proof.
  induction ks as [|k ks IH]; simpl; intros H; [constructor|].
  apply andb_true_iff in H. destruct H as [Hk Hks].
  constructor; [|now apply IH].
  intros Hin. apply InA_alt in Hin. destruct Hin as [y [Hy Hiny]].
  rewrite forallb_forall in Hk. specialize (Hk y Hiny).
  apply negb_true_iff in Hk. apply Qeq_bool_neq in Hk. contradiction.
Qed.

Lemma InA_perm (l l' : list Q) x : Permutation l l' -> InA Qeq x l -> InA Qeq x l'.
Proof.
  intros Hp Hin. apply InA_alt in Hin. destruct Hin as [y [Hy Hiny]].
  apply InA_alt. exists y. split; [exact Hy|].
  eapply Permutation_in; eauto.
Qed.

(** ** Sorting distinct numbers *)

Lemma insert_sorted_strict x : forall l,
  StronglySorted Qlt l -> ~ InA Qeq x l ->
  StronglySorted Qlt (insert_sorted Qltb (fun s : Q => s) x l).
Proof.
  induction l as [|y l IH]; intros Hs Hx; simpl.
  - repeat constructor.
  - apply StronglySorted_inv in Hs. destruct Hs as [Hs Hy].
    destruct (Qltb y x) eqn:E.
    + constructor.
      * apply IH; [exact Hs|]. intros H. apply Hx. now constructor 2.
      * apply Qltb_lt in E. rewrite Forall_forall in *.
        intros z Hz.
        apply (Permutation_in _ (insert_sorted_perm Qltb (fun s : Q => s) x l)) in Hz.
        destruct Hz as [<- | Hz]; [exact E | now apply Hy].
    + apply Qltb_ge in E.
      assert (Hlt : x < y).
      { apply Qle_lt_or_eq in E. destruct E as [E | E]; [exact E|].
        exfalso. apply Hx. now constructor. }
      constructor; [now constructor|].
      constructor; [exact Hlt|].
      rewrite Forall_forall in *. intros z Hz.
      eapply Qlt_trans; [exact Hlt | now apply Hy].
Qed.

Lemma sorted_strict l :
  NoDupA Qeq l -> StronglySorted Qlt (sorted Qltb (fun s : Q => s) l).
Proof.
  induction 1 as [|x l Hx Hl IH]; simpl; [constructor|].
  apply insert_sorted_strict; [exact IH|].
  intros H. apply Hx. eapply InA_perm; [|exact H].
  apply sorted_perm.
Qed.

Lemma StronglySorted_snoc (R : Q -> Q -> Prop) l x :
  StronglySorted R l -> Forall (fun y => R y x) l -> StronglySorted R (l ++ [x]).
Proof.
  induction l as [|a l IH]; intros Hs Hx; simpl.
  - repeat constructor.
  - apply StronglySorted_inv in Hs. destruct Hs as [Hs Ha].
    apply Forall_cons_iff in Hx. destruct Hx as [Hax Hx].
    constructor; [now apply IH|].
    apply Forall_app. split; [exact Ha | now constructor].
Qed.

Lemma StronglySorted_rev_gt l :
  StronglySorted Qlt l -> StronglySorted (fun a b => b < a) (rev l).
Proof.
  induction 1 as [|a l Hs IH Ha]; simpl; [constructor|].
  apply StronglySorted_snoc; [exact IH|].
  rewrite Forall_forall in *. intros y Hy. apply Ha. now apply in_rev.
Qed.

(** [sorted(stats, reverse=True)] lists distinct keys in strictly
    descending order. *)
Lemma sorted_reverse_desc ks :
  distinct_keys ks = true ->
  StronglySorted (fun a b => b < a) (sorted_reverse Qltb (fun s : Q => s) ks).
Proof.
  intros H. unfold sorted_reverse.
  apply StronglySorted_rev_gt, sorted_strict.
  apply NoDupA_rev; [exact Q_Setoid|]. now apply distinct_keys_NoDupA.
Qed.

(** ** Dictionary facts *)

Lemma dict_get_in {V} (d : dict V) k :
  In k (dict_keys d) -> exists v, dict_get d k = Some v.
Proof.
  induction d as [|[k' v] d IH]; simpl; [tauto|].
  intros [-> | H].
  - rewrite Qeq_bool_refl. now exists v.
  - destruct (Qeq_bool k' k); [now exists v | now apply IH].
Qed.

Lemma dict_get_distinct {V} (d : dict V) k v :
  distinct_keys (dict_keys d) = true -> In (k, v) d -> dict_get d k = Some v.
Proof.
  induction d as [|[k' v'] d IH]; simpl; [tauto|].
  intros Hd [E | H].
  - injection E as -> ->. now rewrite Qeq_bool_refl.
  - apply andb_true_iff in Hd. destruct Hd as [Hk Hd].
    destruct (Qeq_bool k' k) eqn:E; [|now apply IH].
    exfalso. rewrite forallb_forall in Hk.
    assert (Hin : In k (dict_keys d)) by (apply in_map_iff; now exists (k, v)).
    specialize (Hk k Hin). rewrite E in Hk. discriminate.
Qed.

Lemma dict_get_some_in {V} (d : dict V) k v :
  dict_get d k = Some v -> exists k', In (k', v) d /\ k' == k.
Proof.
  induction d as [|[k' v'] d IH]; simpl; [discriminate|].
  destruct (Qeq_bool k' k) eqn:E.
  - intros H; injection H as ->. exists k'. split; [now left|].
    now apply Qeq_bool_eq.
  - intros H. destruct (IH H) as [k'' [Hin Hk]]. exists k''. split; [now right | exact Hk].
Qed.

Lemma dict_set_fresh {V} (d : dict V) k v :
  Forall (fun k' => k < k') (dict_keys d) -> dict_set d k v = d ++ [(k, v)].
Proof.
  induction d as [|[k' v'] d IH]; simpl; intros H; [reflexivity|].
  apply Forall_cons_iff in H. destruct H as [Hk H].
  destruct (Qeq_bool k' k) eqn:E.
  - apply Qeq_bool_eq in E. rewrite E in Hk. exfalso. exact (Qlt_irrefl _ Hk).
  - now rewrite IH.
Qed.

(** ** The body size *)

Lemma max_by_from_spec {A} (l : list (A * Q)) : forall (best : A) (bk : Q),
  exists k,
    In (max_by_from best bk l, k) ((best, bk) :: l)
    /\ forall x kx, In (x, kx) ((best, bk) :: l) -> kx <= k.
Proof.
  induction l as [|[a k0] l IH]; intros best bk.
  - exists bk. split; [now left|].
    intros x kx [E | []]. injection E as _ <-. apply Qle_refl.
  - cbn [max_by_from]. destruct (Qltb bk k0) eqn:E.
    + destruct (IH a k0) as [k [Hin Hmax]]. exists k. split.
      * now right.
      * intros x kx [E' | Hx]; [|now apply (Hmax x)].
        injection E' as _ <-. apply Qltb_lt in E.
        apply Qlt_le_weak. eapply Qlt_le_trans; [exact E|].
        apply (Hmax a). now left.
    + destruct (IH best bk) as [k [Hin Hmax]]. exists k. split.
      * destruct Hin as [Hin | Hin]; [now left | now right; right].
      * intros x kx [E' | [E' | Hx]].
        -- apply (Hmax x). now left.
        -- injection E' as _ <-. apply Qltb_ge in E.
           eapply Qle_trans; [exact E|]. apply (Hmax best). now left.
        -- apply (Hmax x). now right.
Qed.

Lemma keyed_sizes stats : forall l,
  distinct_keys (dict_keys stats) = true ->
  (forall kv, In kv l -> In kv stats) ->
  map_exc (fun s => st <- getitem stats s ;; ret (s, frequency st)) (map fst l)
  = inr (map (fun kv => (fst kv, frequency (snd kv))) l).
Proof.
  induction l as [|[k st] l IH]; intros Hd Hsub; [reflexivity|].
  cbn [map map_exc fst snd]. unfold getitem at 1.
  rewrite (dict_get_distinct stats k st Hd) by (apply Hsub; now left).
  cbn [bind ret]. rewrite IH; [reflexivity | exact Hd |].
  intros kv Hkv. apply Hsub. now right.
Qed.

Lemma body_size_of_spec stats :
  stats <> [] -> distinct_keys (dict_keys stats) = true ->
  exists body stb,
    body_size_of stats = inr body
    /\ dict_get stats body = Some stb
    /\ forall k st, In (k, st) stats -> frequency st <= frequency stb.
Proof.
  intros Hne Hd. unfold body_size_of, dict_keys.
  rewrite (keyed_sizes stats stats Hd) by auto. cbn [bind].
  destruct stats as [|[k0 st0] rest]; [congruence|].
  cbn [map max_by fst snd].
  destruct (max_by_from_spec
              (map (fun kv => (fst kv, frequency (snd kv))) rest) k0 (frequency st0))
    as [k [Hin Hmax]].
  set (keyed := map (fun kv : Q * Stat => (fst kv, frequency (snd kv))) ((k0, st0) :: rest)).
  change ((k0, frequency st0) :: map (fun kv => (fst kv, frequency (snd kv))) rest)
    with keyed in Hin, Hmax.
  apply in_map_iff in Hin. destruct Hin as [[kb stb] [E Hinb]].
  cbn [fst snd] in E. injection E as Ekb Ek.
  exists kb, stb. split; [|split].
  - unfold ret. now rewrite Ekb.
  - now apply dict_get_distinct.
  - intros k' st' Hin'. rewrite Ek. apply (Hmax k').
    unfold keyed. apply in_map_iff. now exists (k', st').
Qed.

(** ** The loop over the sizes *)

Lemma level_names_next n :
  (n < 3)%nat ->
  firstn n level_names ++ [level_name (Z.of_nat n + 1)] = firstn (S n) level_names.
Proof.
  intros H. destruct n as [|[|[|n]]]; try reflexivity. lia.
Qed.

Lemma identify_loop self stats body : forall ks st,
  (forall k, In k ks -> In k (dict_keys stats)) ->
  StronglySorted (fun a b => b < a) ks ->
  identify_inv self stats body ks st ->
  exists st',
    for_each ks (identify_step self stats body) st = inr st'
    /\ identify_inv self stats body [] st'.
Proof.
  induction ks as [|sz ks IH]; intros [headings level] Hks Hs Hinv.
  - exists (headings, level). split; [reflexivity | exact Hinv].
  - apply StronglySorted_inv in Hs. destruct Hs as [Hs Hsz].
    destruct Hinv as [Hlvl [Hlen [Hnames [Hsorted [Habove Hcond]]]]].
    cbn [fst snd] in *.
    destruct (dict_get_in stats sz (Hks sz (or_introl eq_refl))) as [stat Hget].
    cbn [for_each]. unfold identify_step at 1. unfold getitem. rewrite Hget.
    cbn [bind ret].
    assert (Hks' : forall k, In k ks -> In k (dict_keys stats)).
    { intros k Hk. apply Hks. now right. }
    assert (Habove' : Forall (fun h => Forall (fun k => k < h) ks) (map fst headings)).
    { eapply Forall_impl; [|exact Habove].
      intros h Hh. apply Forall_cons_iff in Hh. tauto. }
    destruct (Qltb (body + font_size_threshold self) sz
              && (Qltb (1 # 1000) (frequency stat) && Qltb (frequency stat) (1 # 10))
              && (level <=? 3)%Z) eqn:Etest.
    + apply andb_true_iff in Etest. destruct Etest as [Etest Elvl].
      apply andb_true_iff in Etest. destruct Etest as [Ebody Efreq].
      apply andb_true_iff in Efreq. destruct Efreq as [Elo Ehi].
      apply Qltb_lt in Ebody, Elo, Ehi. apply Z.leb_le in Elvl.
      assert (Hfresh : Forall (fun k' => sz < k') (dict_keys headings)).
      { unfold dict_keys. eapply Forall_impl; [|exact Habove].
        intros h Hh. apply Forall_cons_iff in Hh. tauto. }
      rewrite (dict_set_fresh headings (level_name level) Hfresh).
      apply IH; [exact Hks' | exact Hs |].
      unfold identify_inv. cbn [fst snd].
      rewrite length_app, !map_app. cbn [List.length map fst snd].
      replace (List.length headings + 1)%nat with (S (List.length headings)) by lia.
      split; [lia|]. split; [lia|]. split; [|split; [|split]].
      * rewrite Hnames, Hlvl. apply level_names_next. lia.
      * apply StronglySorted_snoc; [exact Hsorted|exact Hfresh].
      * apply Forall_app. split; [exact Habove'|]. now constructor.
      * apply Forall_app. split; [exact Hcond|].
        constructor; [|constructor]. now exists stat.
    + apply IH; [exact Hks' | exact Hs |].
      unfold identify_inv. cbn [fst snd]. tauto.
Qed.

Lemma list_eq_dec_nil {A} (l : list A) : l = [] \/ l <> [].
Proof. destruct l; [now left | right; discriminate]. Qed.

Lemma identify_heading_fonts_nonempty self stats :
  stats <> [] ->
  _identify_heading_fonts self stats =
  (body_size <- body_size_of stats ;;
   st <- for_each (sorted_reverse Qltb (fun s => s) (dict_keys stats))
           (identify_step self stats body_size) ([], 1%Z) ;;
   ret (fst st)).
Proof.
  destruct stats as [|kv rest]; [congruence|]. intros _.
  unfold _identify_heading_fonts.
  destruct (body_size_of (kv :: rest)) as [e|b]; [reflexivity|].
  cbn [bind].
  destruct (for_each _ _ _) as [e|[h l]]; reflexivity.
Qed.

(** C6: on a statistics dictionary (distinct sizes as keys) the classifier
    returns a dictionary of at most three sizes, labelled H1, H2, H3 in this
    order, of strictly decreasing size; each of them is more than 2.0 above
    the body size, the size whose frequency is the largest, and has a
    frequency strictly between 0.001 and 0.1. *)
Theorem identify_heading_fonts_levels :
  forall stats : dict Stat,
    distinct_keys (dict_keys stats) = true ->
    exists headings,
      _identify_heading_fonts __init__ stats = inr headings
      /\ (List.length headings <= 3)%nat
      /\ map snd headings = firstn (List.length headings) level_names
      /\ StronglySorted (fun a b => b < a) (map fst headings)
      /\ forall sz lvl, In (sz, lvl) headings ->
           exists body stb st,
             body_size_of stats = inr body
             /\ dict_get stats body = Some stb
             /\ (forall k st', In (k, st') stats -> frequency st' <= frequency stb)
             /\ dict_get stats sz = Some st
             /\ body + 2 < sz
             /\ 1 # 1000 < frequency st
             /\ frequency st < 1 # 10.
Proof.
  intros stats Hd.
  destruct (list_eq_dec_nil stats) as [-> | Hne].
  - exists []. split; [reflexivity|]. split; [simpl; lia|].
    split; [reflexivity|]. split; [constructor|]. intros sz lvl [].
  - rewrite (identify_heading_fonts_nonempty __init__ Hne).
    destruct (body_size_of_spec Hne Hd) as [body [stb [Hbody [Hgetb Hmax]]]].
    rewrite Hbody. cbn [bind].
    destruct (@identify_loop __init__ stats body
                (sorted_reverse Qltb (fun s : Q => s) (dict_keys stats)) ([], 1%Z))
      as [[headings level] [Hloop Hinv]].
    + intros k Hk. eapply Permutation_in; [|exact Hk]. apply sorted_reverse_perm.
    + now apply sorted_reverse_desc.
    + unfold identify_inv. cbn [fst snd List.length map].
      split; [reflexivity|]. split; [lia|]. split; [reflexivity|].
      split; [constructor|]. split; constructor.
    + rewrite Hloop. cbn [bind ret fst].
      destruct Hinv as [_ [Hlen [Hnames [Hsorted [_ Hcond]]]]]. cbn [fst snd] in *.
      exists headings. repeat split; try assumption.
      intros sz lvl Hin. rewrite Forall_forall in Hcond.
      destruct (Hcond _ Hin) as [st [Hget [H1 [H2 H3]]]]. cbn [fst] in *.
      exists body, stb, st. repeat split; assumption.
Qed.

(* ================================================================== *)
(** * The title candidate scorer *)
(* ================================================================== *)

Lemma min_fold_spec xs : forall m,
  let r := fold_left (fun m y => if Qltb y m then y else m) xs m in
  In r (m :: xs) /\ Forall (fun x => r <= x) (m :: xs).
Proof.
  induction xs as [|y xs IH]; intros m; cbn zeta in *.
  - simpl. split; [now left|]. constructor; [apply Qle_refl | constructor].
  - cbn [fold_left]. destruct (Qltb y m) eqn:E.
    + destruct (IH y) as [Hin Hall]. split.
      * destruct Hin as [<- | Hin]; [right; now left | right; now right].
      * apply Forall_cons_iff in Hall. destruct Hall as [Hy Hall].
        constructor; [|now constructor].
        apply Qltb_lt in E. eapply Qle_trans; [exact Hy|]. now apply Qlt_le_weak.
    + destruct (IH m) as [Hin Hall]. split.
      * destruct Hin as [<- | Hin]; [now left | right; now right].
      * apply Forall_cons_iff in Hall. destruct Hall as [Hm Hall].
        constructor; [exact Hm|]. constructor; [|exact Hall].
        apply Qltb_ge in E. eapply Qle_trans; eauto.
Qed.

(** [min_of] is the minimum. *)
Lemma min_of_least xs :
  xs <> [] -> In (min_of xs) xs /\ Forall (fun x => min_of xs <= x) xs.
Proof.
  destruct xs as [|x xs]; [congruence|]. intros _. apply min_fold_spec.
Qed.

Lemma max_fold_spec xs : forall m,
  let r := fold_left (fun m y => if Qltb m y then y else m) xs m in
  In r (m :: xs) /\ Forall (fun x => x <= r) (m :: xs).
Proof.
  induction xs as [|y xs IH]; intros m; cbn zeta in *.
  - simpl. split; [now left|]. constructor; [apply Qle_refl | constructor].
  - cbn [fold_left]. destruct (Qltb m y) eqn:E.
    + destruct (IH y) as [Hin Hall]. split.
      * destruct Hin as [<- | Hin]; [right; now left | right; now right].
      * apply Forall_cons_iff in Hall. destruct Hall as [Hy Hall].
        constructor; [|now constructor].
        apply Qltb_lt in E. eapply Qle_trans; [|exact Hy]. now apply Qlt_le_weak.
    + destruct (IH m) as [Hin Hall]. split.
      * destruct Hin as [<- | Hin]; [now left | right; now right].
      * apply Forall_cons_iff in Hall. destruct Hall as [Hm Hall].
        constructor; [exact Hm|]. constructor; [|exact Hall].
        apply Qltb_ge in E. eapply Qle_trans; eauto.
Qed.

(** [max_of] is the maximum. *)
Lemma max_of_greatest xs :
  xs <> [] -> In (max_of xs) xs /\ Forall (fun x => x <= max_of xs) xs.
Proof.
  destruct xs as [|x xs]; [congruence|]. intros _. apply max_fold_spec.
Qed.

Lemma py_min_min_of xs : xs <> [] -> py_min xs = inr (min_of xs).
Proof. destruct xs; [congruence | reflexivity]. Qed.

Lemma py_max_max_of xs : xs <> [] -> py_max xs = inr (max_of xs).
Proof. destruct xs; [congruence | reflexivity]. Qed.

(* ------------------------------------------------------------------ *)
(** ** The order of binary64 *)
(* ------------------------------------------------------------------ *)

Lemma SFcompare_key x y :
  x <> S754_nan -> y <> S754_nan ->
  SFcompare x y = Some (lex_compare (float_key x) (float_key y)).
Proof.
  intros Hx Hy.
  destruct x as [sx|sx| |sx mx ex], y as [sy|sy| |sy my ey]; try congruence;
    try (destruct sx); try (destruct sy); try reflexivity.
  cbn. rewrite Z.compare_opp.
  change (PosDef.Pos.compare_cont Eq mx my) with (mx ?= my)%positive.
  destruct (Z.compare_spec ex ey) as [E|E|E].
  - subst. now rewrite Z.compare_refl.
  - apply Z.compare_gt_iff in E. now rewrite E.
  - apply Z.compare_lt_iff in E. now rewrite E.
Qed.

Lemma lex_compare_trans a b c :
  lex_compare a b <> Gt -> lex_compare b c <> Gt -> lex_compare a c <> Gt.
Proof.
  destruct a as [[a1 a2] a3], b as [[b1 b2] b3], c as [[c1 c2] c3].
  unfold lex_compare.
  destruct (Z.compare_spec a1 b1), (Z.compare_spec b1 c1), (Z.compare_spec a1 c1);
    try lia; try congruence;
  destruct (Z.compare_spec a2 b2), (Z.compare_spec b2 c2), (Z.compare_spec a2 c2);
    try lia; try congruence;
  destruct (Z.compare_spec a3 b3), (Z.compare_spec b3 c3), (Z.compare_spec a3 c3);
    try lia; congruence.
Qed.

Lemma lex_compare_antisym a b : lex_compare b a = CompOpp (lex_compare a b).
Proof.
  destruct a as [[a1 a2] a3], b as [[b1 b2] b3]. unfold lex_compare.
  rewrite (Z.compare_antisym a1 b1), (Z.compare_antisym a2 b2),
    (Z.compare_antisym a3 b3).
  destruct (a1 ?= b1)%Z, (a2 ?= b2)%Z, (a3 ?= b3)%Z; reflexivity.
Qed.

Lemma is_nan_spec x : is_nan x = false -> Prim2SF x <> S754_nan.
Proof.
  unfold is_nan. rewrite FloatAxioms.eqb_spec. intros H E. rewrite E in H. discriminate.
Qed.

Lemma leb_key x y :
  is_nan x = false -> is_nan y = false ->
  (x <=? y)%float
  = match lex_compare (float_key (Prim2SF x)) (float_key (Prim2SF y)) with
    | Gt => false
    | _ => true
    end.
Proof.
  intros Hx Hy. rewrite FloatAxioms.leb_spec. unfold SFleb.
  rewrite SFcompare_key by now apply is_nan_spec. reflexivity.
Qed.

Lemma ltb_key x y :
  is_nan x = false -> is_nan y = false ->
  (x <? y)%float
  = match lex_compare (float_key (Prim2SF x)) (float_key (Prim2SF y)) with
    | Lt => true
    | _ => false
    end.
Proof.
  intros Hx Hy. rewrite FloatAxioms.ltb_spec. unfold SFltb.
  rewrite SFcompare_key by now apply is_nan_spec. reflexivity.
Qed.

Lemma float_le_trans x y z :
  is_nan x = false -> is_nan y = false -> is_nan z = false ->
  (x <=? y)%float = true -> (y <=? z)%float = true -> (x <=? z)%float = true.
Proof.
  intros Hx Hy Hz. rewrite !leb_key by assumption.
  pose proof (@lex_compare_trans (float_key (Prim2SF x)) (float_key (Prim2SF y))
                (float_key (Prim2SF z))) as T.
  destruct (lex_compare (float_key (Prim2SF x)) (float_key (Prim2SF y))),
    (lex_compare (float_key (Prim2SF y)) (float_key (Prim2SF z))),
    (lex_compare (float_key (Prim2SF x)) (float_key (Prim2SF z)));
    try reflexivity; try discriminate;
    intros _ _; exfalso; apply T; congruence.
Qed.

Lemma float_lt_le x y :
  is_nan x = false -> is_nan y = false ->
  (x <? y)%float = true -> (x <=? y)%float = true.
Proof.
  intros Hx Hy. rewrite ltb_key, leb_key by assumption.
  now destruct (lex_compare _ _).
Qed.

Lemma float_nlt_le x y :
  is_nan x = false -> is_nan y = false ->
  (x <? y)%float = false -> (y <=? x)%float = true.
Proof.
  intros Hx Hy. rewrite ltb_key, leb_key by assumption.
  rewrite (lex_compare_antisym (float_key (Prim2SF x))).
  now destruct (lex_compare _ _).
Qed.

Lemma float_le_refl x : is_nan x = false -> (x <=? x)%float = true.
Proof.
  intros Hx. apply (@float_nlt_le x x Hx Hx).
  rewrite ltb_key by assumption.
  pose proof (lex_compare_antisym (float_key (Prim2SF x)) (float_key (Prim2SF x))) as A.
  destruct (lex_compare _ _); try reflexivity; discriminate.
Qed.

Lemma SFmul_comm x y : SFmul prec emax x y = SFmul prec emax y x.
Proof.
  destruct x as [sx|sx| |sx mx ex], y as [sy|sy| |sy my ey]; cbn [SFmul];
    try reflexivity; try (now rewrite xorb_comm).
  now rewrite xorb_comm, Pos.mul_comm, Z.add_comm.
Qed.

(** Multiplication in binary64 is commutative: the order of the factors in
    the score does not matter. *)
Lemma float_mul_comm x y : (x * y = y * x)%float.
Proof. apply FloatAxioms.Prim2SF_inj. rewrite !FloatAxioms.mul_spec. apply SFmul_comm. Qed.

(** [max] with float keys returns one of the elements, *)
Lemma max_by_float_from_In {A} (l : list (A * float)) : forall (best : A) bk,
  In (max_by_float_from best bk l) (best :: map fst l).
Proof.
  induction l as [|[a k] l IH]; intros best bk; [now left|].
  cbn [max_by_float_from map fst].
  destruct (bk <? k)%float.
  - right. apply IH.
  - destruct (IH best bk) as [H | H]; [now left | right; now right].
Qed.

(** and, when the keys are numbers, one whose key is the greatest. *)
Lemma max_by_float_from_spec {A} (l : list (A * float)) : forall (best : A) bk,
  is_nan bk = false -> Forall (fun x => is_nan (snd x) = false) l ->
  exists k,
    In (max_by_float_from best bk l, k) ((best, bk) :: l)
    /\ is_nan k = false
    /\ forall x kx, In (x, kx) ((best, bk) :: l) -> (kx <=? k)%float = true.
Proof.
  induction l as [|[a k0] l IH]; intros best bk Hbk Hl.
  - exists bk. split; [now left|]. split; [exact Hbk|].
    intros x kx [E | []]. injection E as _ <-. now apply float_le_refl.
  - apply Forall_cons_iff in Hl. destruct Hl as [Hk0 Hl]. cbn [snd] in Hk0.
    cbn [max_by_float_from]. destruct (bk <? k0)%float eqn:E.
    + destruct (IH a k0 Hk0 Hl) as [k [Hin [Hk Hmax]]]. exists k. split.
      * now right.
      * split; [exact Hk|].
        intros x kx [E' | Hx]; [|now apply (Hmax x)].
        injection E' as _ <-.
        apply (@float_le_trans bk k0 k); try assumption.
        -- now apply float_lt_le.
        -- apply (Hmax a). now left.
    + destruct (IH best bk Hbk Hl) as [k [Hin [Hk Hmax]]]. exists k. split.
      * destruct Hin as [Hin | Hin]; [now left | now right; right].
      * split; [exact Hk|].
        intros x kx [E' | [E' | Hx]].
        -- apply (Hmax x). now left.
        -- injection E' as _ <-.
           apply (@float_le_trans k0 bk k); try assumption.
           ++ now apply float_nlt_le.
           ++ apply (Hmax best). now left.
        -- apply (Hmax x). now right.
Qed.

(* ------------------------------------------------------------------ *)
(** ** The score of a line *)
(* ------------------------------------------------------------------ *)

Lemma float_of_Q_zero q : q == 0 -> float_of_Q q = 0%float.
Proof.
  intros E. unfold float_of_Q. now rewrite (Qred_complete _ _ E).
Qed.

Lemma float_div_int_ok x n : n <> 0%Z -> float_div_int x n = inr (x / float_of_Z n)%float.
Proof.
  intros H. unfold float_div_int. apply Z.eqb_neq in H. now rewrite H.
Qed.

Lemma length_nonzero {A} (l : list A) : l <> [] -> Z.of_nat (List.length l) <> 0%Z.
Proof. destruct l; [congruence | simpl; lia]. Qed.

(** With a score that has a value on the page, a line that holds a
    character gets the score the design states. *)
Lemma score_line_ok h w (line : list Glyph) :
  line <> [] -> score_defined h w = true ->
  score_line h w line = inr (title_score h w line).
Proof.
  intros Hl Hd. unfold score_defined in Hd.
  apply andb_true_iff in Hd. destruct Hd as [Hh Hw].
  apply negb_true_iff in Hh, Hw.
  assert (Hmap : forall (f : Glyph -> Q), map f line <> []).
  { intros f E. apply map_eq_nil in E. contradiction. }
  unfold score_line. cbn zeta.
  rewrite float_div_int_ok by now apply length_nonzero.
  cbn [bind]. rewrite !py_min_min_of, py_max_max_of by apply Hmap.
  cbn [bind]. unfold float_div. rewrite Hh, Hw. cbn [bind ret].
  unfold title_score, avg_size, x_center_of. cbn zeta.
  rewrite (float_mul_comm float_0_4).
  rewrite !(float_mul_comm float_0_3).
  reflexivity.
Qed.

(** The loop over the first lines collects the lines that pass the length
    test, each with its text and its score. *)
Lemma candidates_loop self h w : forall lines acc,
  Forall (fun l => l <> []) lines -> score_defined h w = true ->
  for_each lines (candidate_of_line self h w) acc
  = inr (acc ++ map (fun l => (line_text l, title_score h w l))
                    (filter (fun l => in_bounds self (line_text l)) lines)).
Proof.
  induction lines as [|l lines IH]; intros acc Hne Hd.
  - simpl. now rewrite app_nil_r.
  - apply Forall_cons_iff in Hne. destruct Hne as [Hl Hne].
    cbn [for_each filter]. unfold candidate_of_line at 1.
    destruct (in_bounds self (line_text l)); cbn [negb].
    + rewrite score_line_ok by assumption. cbn [bind ret].
      rewrite IH by assumption. cbn [map]. now rewrite <- app_assoc.
    + cbn [bind ret]. now apply IH.
Qed.

(** Lines that fail the length test are skipped before anything is
    computed. *)
Lemma candidates_loop_none self h w : forall lines acc,
  filter (fun l => in_bounds self (line_text l)) lines = [] ->
  for_each lines (candidate_of_line self h w) acc = inr acc.
Proof.
  induction lines as [|l lines IH]; intros acc H; [reflexivity|].
  cbn [for_each filter] in *. unfold candidate_of_line at 1.
  destruct (in_bounds self (line_text l)); [discriminate|].
  cbn [negb bind ret]. now apply IH.
Qed.

(** Without a value for the score, the score of a line is a division by
    zero. *)
Lemma score_line_undefined h w (line : list Glyph) :
  line <> [] -> score_defined h w = false ->
  score_line h w line = inl ZeroDivisionError.
Proof.
  intros Hl Hd.
  assert (Hmap : forall (f : Glyph -> Q), map f line <> []).
  { intros f E. apply map_eq_nil in E. contradiction. }
  unfold score_line. cbn zeta.
  rewrite float_div_int_ok by now apply length_nonzero.
  cbn [bind]. rewrite !py_min_min_of, py_max_max_of by apply Hmap.
  cbn [bind]. unfold float_div, score_defined in *.
  destruct (float_of_Q h =? 0)%float; [reflexivity|].
  cbn [bind ret]. cbn [negb andb] in Hd.
  apply negb_false_iff in Hd. now rewrite Hd.
Qed.

Lemma candidates_loop_undefined self h w : forall lines acc,
  Forall (fun l => l <> []) lines -> score_defined h w = false ->
  filter (fun l => in_bounds self (line_text l)) lines <> [] ->
  for_each lines (candidate_of_line self h w) acc = inl ZeroDivisionError.
Proof.
  induction lines as [|l lines IH]; intros acc Hne Hz Hf; [now simpl in Hf|].
  apply Forall_cons_iff in Hne. destruct Hne as [Hl Hne].
  cbn [for_each filter] in *. unfold candidate_of_line at 1.
  destruct (in_bounds self (line_text l)); cbn [negb].
  - rewrite score_line_undefined by assumption. reflexivity.
  - cbn [bind ret]. now apply IH.
Qed.

(** A page of height or width 0 is such a page. *)
Lemma score_defined_zero h w : h == 0 \/ w == 0 -> score_defined h w = false.
Proof.
  intros [E | E]; unfold score_defined; rewrite (float_of_Q_zero E).
  - reflexivity.
  - apply andb_false_r.
Qed.

Lemma firstn_Forall {A} (P : A -> Prop) n l : Forall P l -> Forall P (firstn n l).
Proof.
  intros H. revert n. induction H as [|a l Ha Hl IH]; intros [|n]; simpl;
    constructor; auto.
Qed.

Lemma clean_title_text_len self s : (len (_clean_title_text self s) <= 200)%nat.
Proof. unfold _clean_title_text, len. apply firstn_le_length. Qed.

(** Whatever the scores are, the candidates are lines that pass the
    length test, each with its text. *)
Lemma candidates_loop_members self h w : forall lines acc cands,
  for_each lines (candidate_of_line self h w) acc = inr cands ->
  Forall (fun c => In c acc
                   \/ exists l, In l (filter (fun l => in_bounds self (line_text l)) lines)
                                /\ fst c = line_text l) cands.
Proof.
  induction lines as [|l lines IH]; intros acc cands H.
  - simpl in H. injection H as <-. apply Forall_forall. intros c Hc. now left.
  - cbn [for_each filter] in *. unfold candidate_of_line at 1 in H.
    destruct (in_bounds self (line_text l)) eqn:Eb; cbn [negb] in H.
    + destruct (score_line h w l) as [e|sc]; [discriminate|]. cbn [bind ret] in H.
      specialize (IH _ _ H). eapply Forall_impl; [|exact IH].
      intros c [Hc | [l' [Hl' Hc]]].
      * apply in_app_or in Hc. destruct Hc as [Hc | [<- | []]]; [now left|].
        right. exists l. split; [now left | reflexivity].
      * right. exists l'. split; [now right | exact Hc].
    + cbn [bind ret] in H. apply (IH _ _ H).
Qed.

(** X18: the title scorer never raises and its result has at most 200
    characters.  The result is the empty string when the page cannot be
    read, when none of the first ten lines passes the length test, and when
    a line passes it on a page of height or width 0 (the division by zero is
    caught).  Any other result is the cleaned text of one of the first ten
    lines that pass the length test. *)
Theorem extract_title_from_page_cases :
  forall (self : PDFOutlineExtractor) (page : Page),
    exists t,
      _extract_title_from_page self page = inr t
      /\ (len t <= 200)%nat
      /\ (forall e, chars page = inl e -> t = [])
      /\ (forall cs, chars page = inr cs ->
            (title_lines self cs = [] -> t = [])
            /\ (t = [] \/
                exists line,
                  In line (title_lines self cs)
                  /\ t = _clean_title_text self (line_text line))
            /\ (title_lines self cs <> [] ->
                height page == 0 \/ width page == 0 -> t = [])).
Proof.
  intros self page.
  destruct (_extract_title_from_page self page) as [e|t] eqn:Et.
  { unfold _extract_title_from_page, try_except in Et.
    destruct (_ <- _ ;; _) in Et; discriminate. }
  exists t. split; [reflexivity|].
  unfold _extract_title_from_page in Et.
  destruct (chars page) as [e|cs] eqn:Ec.
  - cbn [bind try_except ret] in Et. injection Et as <-.
    split; [simpl; lia|]. split; [reflexivity | discriminate].
  - cbn [bind] in Et.
    assert (Hcases :
      (len t <= 200)%nat
      /\ (title_lines self cs = [] -> t = [])
      /\ (t = [] \/ exists line, In line (title_lines self cs)
                                 /\ t = _clean_title_text self (line_text line))
      /\ (title_lines self cs <> [] ->
          height page == 0 \/ width page == 0 -> t = [])).
    { destruct (for_each (firstn 10 (_group_by_line cs))
                  (candidate_of_line self (height page) (width page)) [])
        as [e|cands] eqn:Ef.
      - cbn [bind try_except ret] in Et. injection Et as <-.
        split; [simpl; lia|]. split; [reflexivity|]. split; [now left | reflexivity].
      - cbn [bind] in Et.
        pose proof (candidates_loop_members _ _ _ _ _ Ef) as Hmem.
        fold (title_lines self cs) in Hmem.
        destruct cands as [|c0 cands'].
        + cbn [try_except ret] in Et. injection Et as <-.
          split; [simpl; lia|]. split; [reflexivity|]. split; [now left | reflexivity].
        + cbn [map max_by_float bind ret try_except] in Et. injection Et as <-.
          pose proof (max_by_float_from_In
                        (map (fun x : pystr * float => (x, snd x)) cands')
                        c0 (snd c0)) as Hin.
          set (best := max_by_float_from _ _ _) in *.
          assert (Hbest : In best (c0 :: cands')).
          { rewrite map_map in Hin. cbn [fst] in Hin.
            now rewrite map_id in Hin. }
          rewrite Forall_forall in Hmem.
          destruct (Hmem best Hbest) as [[] | [l [Hl Efst]]].
          split; [apply clean_title_text_len|].
          split; [intros Hnil; rewrite Hnil in Hl; contradiction|].
          split; [right; exists l; split; [exact Hl | now rewrite Efst]|].
          intros Hne Hz. exfalso.
          rewrite candidates_loop_undefined in Ef;
            [discriminate | apply firstn_Forall, group_by_line_nonempty
             | now apply score_defined_zero | exact Hne]. }
    destruct Hcases as [H1 [H2 [H3 H4]]].
    split; [exact H1|]. split; [discriminate|].
    intros cs' E. injection E as <-. repeat split; assumption.
Qed.

(** C9: the title scorer never raises.  It returns the empty string when
    the page cannot be read and when none of the first ten lines passes the
    length test.  Otherwise, where the score
    0.4*(avg_size/12) + 0.3*((page_height - y)/page_height)
    + 0.3*(1 - |x_center - page_width/2|/(page_width/2)), evaluated in
    binary64 as the source does, has a value and is a number for each of
    those lines, it returns the cleaned text of one of them whose score is
    the greatest; where the score has no value the division by zero is
    caught and the result is the empty string. *)
Theorem extract_title_from_page_best :
  forall (self : PDFOutlineExtractor) (page : Page),
    exists t,
      _extract_title_from_page self page = inr t
      /\ (forall e, chars page = inl e -> t = [])
      /\ (forall cs, chars page = inr cs ->
            (title_lines self cs = [] -> t = [])
            /\ (title_lines self cs <> [] ->
                score_defined (height page) (width page) = true ->
                (forall l, In l (title_lines self cs) ->
                   is_nan (title_score (height page) (width page) l) = false) ->
                exists line,
                  In line (title_lines self cs)
                  /\ t = _clean_title_text self (line_text line)
                  /\ forall l', In l' (title_lines self cs) ->
                       (title_score (height page) (width page) l'
                        <=? title_score (height page) (width page) line)%float
                       = true)
            /\ (title_lines self cs <> [] ->
                score_defined (height page) (width page) = false -> t = [])).
Proof.
  intros self page. unfold _extract_title_from_page.
  destruct (chars page) as [e|cs] eqn:Ec.
  - exists []. split; [reflexivity|]. split; [reflexivity|]. discriminate.
  - cbn [bind].
    destruct (list_eq_dec_nil (title_lines self cs)) as [Hnil | Hne].
    + unfold title_lines in Hnil.
      rewrite (candidates_loop_none self (height page) (width page) _ [] Hnil).
      exists []. split; [reflexivity|]. split; [discriminate|].
      intros cs' E. injection E as <-. split; [reflexivity|].
      split; intros H; unfold title_lines in H; contradiction.
    + match goal with |- context [try_except ?b ?h] => destruct (try_except b h) as [e|t] eqn:Et end.
      * unfold try_except in Et.
        destruct (_ <- _ ;; _) in Et; discriminate.
      * exists t. split; [reflexivity|]. split; [discriminate|].
        intros cs' E. injection E as <-. split; [contradiction|].
        split.
        2:{ intros _ Hz.
            rewrite candidates_loop_undefined in Et;
              [| apply firstn_Forall, group_by_line_nonempty | exact Hz | exact Hne].
            cbn [bind try_except ret] in Et. now injection Et as <-. }
        intros _ Hd Hnan.
        rewrite candidates_loop in Et;
          [| apply firstn_Forall, group_by_line_nonempty | exact Hd].
        cbn [bind app] in Et. fold (title_lines self cs) in Et.
        set (sc := title_score (height page) (width page)) in *.
        destruct (title_lines self cs) as [|l0 ls] eqn:El; [congruence|].
        cbn [map max_by_float bind ret try_except fst snd] in Et.
        injection Et as <-.
        destruct (@max_by_float_from_spec _
                    (map (fun x : pystr * float => (x, snd x))
                       (map (fun l => (line_text l, sc l)) ls))
                    (line_text l0, sc l0) (sc l0))
          as [k [Hin [_ Hmax]]].
        { apply Hnan. now left. }
        { apply Forall_forall. intros x Hx.
          apply in_map_iff in Hx. destruct Hx as [y [<- Hy]].
          apply in_map_iff in Hy. destruct Hy as [l [<- Hl]].
          cbn [snd]. apply Hnan. now right. }
        set (best := max_by_float_from _ _ _) in *.
        assert (Hall : forall l', In l' (l0 :: ls) -> (sc l' <=? k)%float = true).
        { intros l' [<- | Hl'].
          - apply (Hmax (line_text l0, sc l0)). now left.
          - apply (Hmax (line_text l', sc l')). right.
            apply in_map_iff. exists (line_text l', sc l'). split; [reflexivity|].
            apply in_map_iff. now exists l'. }
        assert (Hbest : exists l, In l (l0 :: ls) /\ best = (line_text l, sc l) /\ k = sc l).
        { destruct Hin as [E | Hin].
          - injection E as E1 E2. exists l0. split; [now left|]. now split.
          - apply in_map_iff in Hin. destruct Hin as [[tx s] [E Hin]].
            cbn [snd] in E. injection E as E1 E2.
            apply in_map_iff in Hin. destruct Hin as [l [E Hl]].
            injection E as E3 E4. exists l. split; [now right|].
            subst. now split. }
        destruct Hbest as [l [Hl [Eb Ek]]].
        exists l. split; [exact Hl|]. split; [now rewrite Eb|].
        intros l' Hl'. rewrite <- Ek. now apply Hall.
Qed.

(* ================================================================== *)
(** * The embedded-outline stage *)
(* ================================================================== *)

Lemma truthy_not_nil s : truthy s = negb (is_nil s).
Proof. now destruct s. Qed.

Lemma toc_outline_filter_map self toc :
  toc_outline self toc = map (toc_entry self) (filter (toc_kept self) toc).
Proof.
  induction toc as [|[[level txt] page] toc IH]; [reflexivity|].
  cbn [toc_outline filter toc_kept]. rewrite truthy_not_nil.
  destruct ((level <=? 3)%Z && negb (is_nil (_clean_heading_text self txt))).
  - cbn [map toc_entry]. now rewrite IH.
  - exact IH.
Qed.

(** The entries of the embedded-outline stage have three fields. *)
Lemma toc_outline_fields self toc :
  Forall (fun d => json_fields d = ["level"; "text"; "page"]%string)
         (toc_outline self toc).
Proof.
  induction toc as [|[[level txt] page] toc IH]; [constructor|].
  cbn [toc_outline].
  destruct ((level <=? 3)%Z && truthy (_clean_heading_text self txt));
    [constructor; [reflexivity | exact IH] | exact IH].
Qed.

(** C10: when the document opens and gives its table of contents and a
    title, the outline of the embedded-outline stage is the table of
    contents, in its order, restricted to the entries of level at most 3
    whose cleaned text is not empty, each turned into
    [{level: "H"+level, text: cleaned text, page: page}]. *)
Theorem extract_pymupdf_outline_entries :
  forall (self : PDFOutlineExtractor) (env : Env) (pdf_path : pystr)
         (doc : MuDoc) (toc : list TocEntry) (t : pystr),
    pymupdf_open env pdf_path = inr doc ->
    get_toc doc = inr toc ->
    metadata_title doc = inr (Some t) ->
    exists r,
      _extract_pymupdf_outline self env pdf_path = inr r
      /\ outline r = map (toc_entry self) (filter (toc_kept self) toc)
      /\ forall d,
           In d (outline r) <->
           exists level txt page,
             In (level, txt, page) toc
             /\ (level <= 3)%Z
             /\ _clean_heading_text self txt <> []
             /\ d = [("level"%string, PStr (str "H" ++ str_of_int level));
                     ("text"%string, PStr (_clean_heading_text self txt));
                     ("page"%string, PInt page)].
Proof.
  intros self env pdf_path doc toc t Hopen Htoc Htitle.
  unfold _extract_pymupdf_outline, extract_pymupdf_outline_try.
  rewrite Hopen. cbn [bind]. rewrite Htoc. cbn [bind]. rewrite Htitle.
  cbn [bind ret try_except].
  eexists. split; [reflexivity|]. cbn [outline].
  rewrite toc_outline_filter_map. split; [reflexivity|].
  intros d. rewrite in_map_iff. split.
  - intros [[[level txt] page] [E Hin]].
    apply filter_In in Hin. destruct Hin as [Hin Hkept].
    cbn [toc_kept] in Hkept. apply andb_true_iff in Hkept.
    destruct Hkept as [Hl Hc]. apply Z.leb_le in Hl.
    exists level, txt, page. repeat split; try assumption.
    + intros E'. rewrite E' in Hc. discriminate.
    + now rewrite <- E.
  - intros [level [txt [page [Hin [Hl [Hc ->]]]]]].
    exists (level, txt, page). split; [reflexivity|].
    apply filter_In. split; [exact Hin|].
    cbn [toc_kept]. apply andb_true_iff. split; [now apply Z.leb_le|].
    destruct (_clean_heading_text self txt); [congruence | reflexivity].
Qed.

Lemma extract_pymupdf_outline_entries_witness :
  pymupdf_open sample_toc_env (str "report.pdf") = inr sample_toc_doc
  /\ exists r,
       _extract_pymupdf_outline __init__ sample_toc_env (str "report.pdf") = inr r
       /\ outline r = map (toc_entry __init__) (filter (toc_kept __init__) sample_toc).
Proof.
  split; [reflexivity|].
  destruct (@extract_pymupdf_outline_entries __init__ sample_toc_env (str "report.pdf")
              sample_toc_doc sample_toc (str "Report") eq_refl eq_refl eq_refl)
    as [r [H1 [H2 _]]].
  exists r. split; assumption.
Defined.

Example embedded_outline_scenario :
  extract_outline __init__ sample_toc_env (str "report.pdf")
  = inr {| title := str "Report";
           outline := [[("level", PStr (str "H1")); ("text", PStr (str "Intro"));
                        ("page", PInt 1)];
                       [("level", PStr (str "H2")); ("text", PStr (str "Background"));
                        ("page", PInt 2)]]%string |}.
Proof. reflexivity. Qed.

(* ================================================================== *)
(** * The orchestrator *)
(* ================================================================== *)

Lemma try_except_returns {A} (body : Exc A) (dflt : A) :
  exists a, try_except body (fun _ => ret dflt) = inr a.
Proof. destruct body as [e|a]; [now exists dflt | now exists a]. Qed.

Lemma try_except_caught {A} (body : Exc A) (dflt : A) e :
  body = inl e -> try_except body (fun _ => ret dflt) = inr dflt.
Proof. now intros ->. Qed.

(** C5: [extract_outline] returns a result on every path and in every state
    of the file system, and so does each of the three stages; an exception
    raised inside a stage is caught by that stage, which then returns its
    empty value; and when the three stages fail the result is the empty
    one. *)
Theorem extract_outline_never_raises :
  forall (self : PDFOutlineExtractor) (env : Env) (pdf_path : pystr),
    (exists r, extract_outline self env pdf_path = inr r)
    /\ (exists r, _extract_pymupdf_outline self env pdf_path = inr r)
    /\ (exists r, _extract_font_based_outline self env pdf_path = inr r)
    /\ (exists t, _extract_title self env pdf_path = inr t)
    /\ (forall e, extract_pymupdf_outline_try self env pdf_path = inl e ->
          _extract_pymupdf_outline self env pdf_path = inr empty_outline)
    /\ (forall e, extract_font_based_outline_try self env pdf_path = inl e ->
          _extract_font_based_outline self env pdf_path = inr empty_outline)
    /\ (forall e, extract_title_try self env pdf_path = inl e ->
          _extract_title self env pdf_path = inr [])
    /\ (forall e1 e2 e3,
          extract_pymupdf_outline_try self env pdf_path = inl e1 ->
          extract_font_based_outline_try self env pdf_path = inl e2 ->
          extract_title_try self env pdf_path = inl e3 ->
          extract_outline self env pdf_path = inr empty_outline).
Proof.
  intros self env pdf_path.
  split; [apply try_except_returns|].
  split; [apply try_except_returns|].
  split; [apply try_except_returns|].
  split; [apply try_except_returns|].
  split; [intros e; apply try_except_caught|].
  split; [intros e; apply try_except_caught|].
  split; [intros e; apply try_except_caught|].
  intros e1 e2 e3 H1 H2 H3.
  assert (E1 : _extract_pymupdf_outline self env pdf_path = inr empty_outline)
    by exact (try_except_caught empty_outline H1).
  assert (E2 : _extract_font_based_outline self env pdf_path = inr empty_outline)
    by exact (try_except_caught empty_outline H2).
  assert (E3 : _extract_title self env pdf_path = inr [])
    by exact (try_except_caught [] H3).
  unfold extract_outline, extract_outline_try.
  rewrite E1. cbn [bind outline empty_outline].
  rewrite E2. cbn [bind title empty_outline].
  rewrite E3. reflexivity.
Qed.

Lemma extract_outline_never_raises_witness :
  extract_pymupdf_outline_try __init__ unreadable_env (str "broken.pdf")
    = inl (LibraryError "cannot open")
  /\ extract_outline __init__ unreadable_env (str "broken.pdf") = inr empty_outline.
Proof.
  split; [reflexivity|].
  destruct (extract_outline_never_raises __init__ unreadable_env (str "broken.pdf"))
    as [_ [_ [_ [_ [_ [_ [_ H]]]]]]].
  exact (H _ _ _ eq_refl eq_refl eq_refl).
Defined.

(* ================================================================== *)
(** * The font-based pipeline on sample documents *)
(* ================================================================== *)

Example heading_fonts_scenario :
  _identify_heading_fonts __init__ sample_stats
  = inr [(16, str "H1"); (14, str "H2")].
Proof. reflexivity. Qed.

Lemma identify_heading_fonts_levels_witness :
  distinct_keys (dict_keys sample_stats) = true
  /\ exists headings,
       _identify_heading_fonts __init__ sample_stats = inr headings
       /\ (List.length headings <= 3)%nat
       /\ StronglySorted (fun a b => b < a) (map fst headings).
Proof.
  split; [reflexivity|].
  destruct (identify_heading_fonts_levels sample_stats eq_refl)
    as [headings [H1 [H2 [_ [H3 _]]]]].
  exists headings. repeat split; assumption.
Defined.

Lemma analyze_font_statistics_frequencies_witness :
  map_exc chars (pages (sample_pdf (str "Part 1")))
  = inr [glyphs_of 10 100 0 (repeat "x"%char 100) ++ glyphs_of 16 50 0 (str "Part 1")]
  /\ exists stats,
       _analyze_font_statistics (sample_pdf (str "Part 1")) = inr stats
       /\ sum_counts stats = 106%Z
       /\ sum_frequencies stats == 1.
Proof.
  split; [reflexivity|].
  destruct (@analyze_font_statistics_frequencies (sample_pdf (str "Part 1")) _ eq_refl)
    as [stats [H1 [_ [H2 [H3 _]]]]].
  exists stats. split; [exact H1|]. split; [exact H2|].
  apply H3. reflexivity.
Defined.

Lemma extract_title_from_page_cases_witness :
  title_lines __init__ (glyphs_of 10 100 0 (repeat "x"%char 100)
                        ++ glyphs_of 16 50 0 (str "Annual Report")) <> []
  /\ exists t,
       _extract_title_from_page __init__ (sample_page (str "Annual Report")) = inr t
       /\ (len t <= 200)%nat.
Proof.
  split; [vm_compute; discriminate|].
  destruct (extract_title_from_page_cases __init__ (sample_page (str "Annual Report")))
    as [t [H1 [H2 _]]].
  exists t. split; assumption.
Defined.

Lemma extract_title_from_page_best_witness :
  exists line,
    In line (title_lines __init__ (tie_first ++ tie_second))
    /\ _extract_title_from_page __init__ tie_page
       = inr (_clean_title_text __init__ (line_text line))
    /\ forall l', In l' (title_lines __init__ (tie_first ++ tie_second)) ->
         (title_score 600 900 l' <=? title_score 600 900 line)%float = true.
Proof.
  destruct (extract_title_from_page_best __init__ tie_page) as [t [H1 [_ H2]]].
  destruct (H2 _ eq_refl) as [_ [H3 _]].
  destruct H3 as [line [H4 [H5 H6]]].
  - vm_compute. discriminate.
  - vm_compute. reflexivity.
  - intros l Hl. vm_compute in Hl.
    destruct Hl as [<- | [<- | []]]; vm_compute; reflexivity.
  - exists line. split; [exact H4|]. split; [now rewrite <- H5 | exact H6].
Defined.

(** The two lines of [tie_page] have the same score as real numbers; the
    rounding makes the second one greater, and its text is the title. *)
Example title_rounding_scenario :
  (title_score 600 900 tie_first <? title_score 600 900 tie_second)%float = true
  /\ _extract_title_from_page __init__ tie_page = inr (str "BBBB").
Proof. split; vm_compute; reflexivity. Qed.

Example title_scenario :
  _extract_title_from_page __init__ (sample_page (str "Annual Report"))
  = inr (str "Annual Report").
Proof. vm_compute. reflexivity. Qed.

(** A page without characters gives no line, no heading and no title. *)
Example empty_page_scenario :
  let page := {| chars := inr []; height := 800; width := 600 |} in
  _extract_page_headings __init__ page [] 1 = inr []
  /\ _extract_title_from_page __init__ page = inr [].
Proof. split; reflexivity. Qed.

(** C1: in the font-based pipeline the dictionary built for a heading
    carries [y_position] and [font_size] next to [level], [text] and [page],
    and it reaches [json.dump] as it is: on the sample document the entry
    written to the file has five fields. *)
Theorem process_pdf_font_entry_fields :
  exists entry,
    outline (process_pdf (sample_env (str "Intro")) (str "paper.pdf")) = [entry]
    /\ json_fields entry
       = ["level"; "text"; "page"; "y_position"; "font_size"]%string.
Proof.
  eexists. split; [vm_compute; reflexivity | reflexivity].
Qed.

(** C2: in the font-based pipeline the length test is made on the text of
    the line before it is cleaned, and the cleaned text is stored whatever
    its length: the line ["Part 1"] passes the test and gives an entry whose
    text is empty. *)
Theorem process_pdf_empty_heading_text :
  exists entry,
    outline (process_pdf (sample_env (str "Part 1")) (str "paper.pdf")) = [entry]
    /\ pydict_get entry "text" = inr (PStr [])
    /\ in_bounds __init__ [] = false.
Proof.
  eexists. split; [vm_compute; reflexivity | split; reflexivity].
Qed.

(* ================================================================== *)
(** * Order of the sorted sequences *)
(* ================================================================== *)

Section SortedOrder.
Variables (A K : Type) (lt : K -> K -> bool) (key : A -> K) (le : K -> K -> Prop).
Hypothesis lt_false : forall x y, lt y x = false -> le x y.
Hypothesis lt_true : forall x y, lt y x = true -> le y x.
Hypothesis le_trans : forall x y z, le x y -> le y z -> le x z.

Lemma insert_sorted_ordered x : forall l,
  StronglySorted (fun a b => le (key a) (key b)) l ->
  StronglySorted (fun a b => le (key a) (key b)) (insert_sorted lt key x l).
Proof.
  induction l as [|y l IH]; intros Hs; simpl.
  - repeat constructor.
  - apply StronglySorted_inv in Hs. destruct Hs as [Hs Hy].
    destruct (lt (key y) (key x)) eqn:E.
    + constructor; [now apply IH|].
      rewrite Forall_forall in *. intros z Hz.
      apply (Permutation_in _ (insert_sorted_perm lt key x l)) in Hz.
      destruct Hz as [<- | Hz]; [now apply lt_true | now apply Hy].
    + constructor; [now constructor|].
      constructor; [now apply lt_false|].
      rewrite Forall_forall in *. intros z Hz.
      eapply le_trans; [apply lt_false; exact E | now apply Hy].
Qed.

Lemma sorted_ordered l :
  StronglySorted (fun a b => le (key a) (key b)) (sorted lt key l).
Proof.
  induction l as [|x l IH]; simpl; [constructor|].
  now apply insert_sorted_ordered.
Qed.
End SortedOrder.

Lemma pair_ltb_false a b : pair_ltb b a = false -> pair_le a b.
Proof.
  unfold pair_ltb, pair_le. destruct (Qeq_bool (fst b) (fst a)) eqn:E.
  - apply Qeq_bool_eq in E. intros H. apply Qltb_ge in H.
    right. split; [now symmetry | exact H].
  - apply Qeq_bool_neq in E. intros H. apply Qltb_ge in H.
    apply Qle_lt_or_eq in H. destruct H as [H | H]; [now left|].
    exfalso. apply E. now symmetry.
Qed.

Lemma pair_ltb_true a b : pair_ltb a b = true -> pair_le a b.
Proof.
  unfold pair_ltb, pair_le. destruct (Qeq_bool (fst a) (fst b)) eqn:E.
  - apply Qeq_bool_eq in E. intros H. apply Qltb_lt in H.
    right. split; [exact E | now apply Qlt_le_weak].
  - intros H. apply Qltb_lt in H. now left.
Qed.

Lemma pair_le_trans a b c : pair_le a b -> pair_le b c -> pair_le a c.
Proof.
  unfold pair_le. intros [H1 | [H1 H1']] [H2 | [H2 H2']].
  - left. eapply Qlt_trans; eauto.
  - left. now rewrite <- H2.
  - left. now rewrite H1.
  - right. split; [now rewrite H1 | eapply Qle_trans; eauto].
Qed.

Lemma sorted_pairs_ordered {A} (key : A -> Q * Q) l :
  StronglySorted (fun a b => pair_le (key a) (key b)) (sorted pair_ltb key l).
Proof.
  apply sorted_ordered.
  - intros x y. apply pair_ltb_false.
  - intros x y. apply pair_ltb_true.
  - intros x y z. apply pair_le_trans.
Qed.

(* ================================================================== *)
(** * Further properties of the line reconstructor *)
(* ================================================================== *)

Lemma near_anchor_snoc line c :
  line <> [] -> near_anchor line -> Qabs (top c - anchor line) < line_gap ->
  near_anchor (line ++ [c]).
Proof.
  intros Hne Hn Hc. unfold near_anchor in *.
  destruct line as [|c0 rest]; [congruence|].
  cbn [app anchor] in *. rewrite app_comm_cons.
  apply Forall_app. split; [exact Hn|]. now constructor.
Qed.

Lemma near_anchor_single c : near_anchor [c].
Proof.
  unfold near_anchor. constructor; [|constructor].
  cbn [anchor].
  assert (E : top c - top c == 0) by ring.
  rewrite E. reflexivity.
Qed.

Lemma anchor_snoc line c : line <> [] -> anchor (line ++ [c]) = anchor line.
Proof. destruct line; [congruence | reflexivity]. Qed.

Lemma apart_chain_snoc ys : forall y y',
  apart_chain (ys ++ [y]) -> line_gap <= Qabs (y' - y) ->
  apart_chain ((ys ++ [y]) ++ [y']).
Proof.
  induction ys as [|a ys IH]; intros y y' H Hy.
  - simpl. now split.
  - destruct ys as [|b ys'].
    + simpl in *. destruct H as [H _]. now repeat split.
    + cbn [app apart_chain] in *. destruct H as [H1 H2].
      split; [exact H1|]. apply (IH y y'); assumption.
Qed.

(** What the loop of [_group_by_line] maintains. *)
Lemma group_step_anchor rest : forall lines current y,
  current <> [] -> anchor current = y ->
  Forall near_anchor (lines ++ [current]) ->
  apart_chain (map anchor (lines ++ [current])) ->
  let r := fold_left group_step rest (lines, current, y) in
  Forall near_anchor (fst (fst r) ++ [snd (fst r)])
  /\ apart_chain (map anchor (fst (fst r) ++ [snd (fst r)])).
Proof.
  induction rest as [|c rest IH]; intros lines current y Hne Hy Hnear Hchain;
    cbn zeta in *.
  - now split.
  - cbn [fold_left group_step].
    destruct (float_dist_lt_5 (top c) y) eqn:E; unfold float_dist_lt_5 in E.
    + apply Qltb_lt in E. apply IH.
      * now destruct current.
      * now rewrite anchor_snoc.
      * apply Forall_app in Hnear. destruct Hnear as [Hl Hc].
        apply Forall_app. split; [exact Hl|].
        constructor; [|constructor].
        apply near_anchor_snoc; [exact Hne | now inversion Hc | now rewrite Hy].
      * rewrite map_app in *. cbn [map] in *. now rewrite anchor_snoc.
    + apply Qltb_ge in E. apply IH.
      * discriminate.
      * reflexivity.
      * apply Forall_app. split; [exact Hnear|].
        constructor; [apply near_anchor_single | constructor].
      * rewrite map_app. cbn [map anchor].
        rewrite map_app in *. cbn [map] in Hchain.
        apply apart_chain_snoc; [exact Hchain | now rewrite Hy].
Qed.

(** Two characters whose heights are less than 5 apart, but whose computed
    difference [5.3 - 0.3] is [5.0]: they end on two lines. *)
Example group_by_line_rounded_gap :
  Qabs (top_5_3 - top_0_3) < 5
  /\ _group_by_line close_glyphs
     = [[glyph_at 12 top_0_3 0 "a"%char]; [glyph_at 12 top_5_3 1 "b"%char]].
Proof. split; [reflexivity | vm_compute; reflexivity]. Qed.

(** On these two heights the test agrees with the subtraction of binary64,
    as it does on heights further apart or closer. *)
Example line_test_binary64 :
  float_dist_lt_5 top_5_3 top_0_3
  = (abs (float_of_Q top_5_3 - float_of_Q top_0_3) <? 5)%float
  /\ float_dist_lt_5 top_0_3 top_5_3
     = (abs (float_of_Q top_0_3 - float_of_Q top_5_3) <? 5)%float
  /\ float_dist_lt_5 5 top_0_3
     = (abs (float_of_Q 5 - float_of_Q top_0_3) <? 5)%float
  /\ float_dist_lt_5 5 0 = (abs (float_of_Q 5 - float_of_Q 0) <? 5)%float.
Proof. repeat split; vm_compute; reflexivity. Qed.

(** X1: the characters of a page, read line after line, come in ascending
    order of [(top, x0)]; inside a line the vertical distance of every
    character to the first one is less than [line_gap] = 5 - 2^-51, that is,
    the distance the source computes in binary64 is below 5 (and so is the
    exact one); and the first characters of two consecutive lines are at
    least [line_gap] apart, that is, their computed distance is 5 or more. *)
Theorem group_by_line_layout :
  forall cs : list Glyph,
    StronglySorted (fun a b => pair_le (glyph_key a) (glyph_key b))
                   (List.concat (_group_by_line cs))
    /\ Forall near_anchor (_group_by_line cs)
    /\ apart_chain (map anchor (_group_by_line cs)).
Proof.
  intros cs. split.
  - rewrite group_by_line_concat. apply sorted_pairs_ordered.
  - unfold _group_by_line.
    destruct cs as [|c cs]; [split; [constructor | exact I]|].
    destruct (sorted pair_ltb glyph_key (c :: cs)) as [|c0 rest];
      [split; [constructor | exact I]|].
    pose proof (@group_step_anchor rest [] [c0] (top c0)) as H.
    cbn zeta in H.
    destruct (fold_left group_step rest ([], [c0], top c0)) as [[lines current] y].
    apply H.
    + discriminate.
    + reflexivity.
    + constructor; [apply near_anchor_single | constructor].
    + exact I.
Qed.

(* ================================================================== *)
(** * The central sort of the outline *)
(* ================================================================== *)

Lemma map_exc_inr {A B} (f : A -> Exc B) : forall l bs,
  map_exc f l = inr bs -> Forall2 (fun a b => f a = inr b) l bs.
Proof.
  induction l as [|a l IH]; intros bs H; simpl in H.
  - injection H as <-. constructor.
  - destruct (f a) as [e|b] eqn:Ea; [discriminate|]. cbn [bind] in H.
    destruct (map_exc f l) as [e|bs'] eqn:El; [discriminate|]. cbn [bind ret] in H.
    injection H as <-. constructor; [exact Ea | now apply IH].
Qed.

Lemma map_exc_of_Forall2 {A B} (f : A -> Exc B) : forall l bs,
  Forall2 (fun a b => f a = inr b) l bs -> map_exc f l = inr bs.
Proof.
  induction 1 as [|a b l bs Hab _ IH]; [reflexivity|].
  simpl. rewrite Hab. cbn [bind]. rewrite IH. reflexivity.
Qed.

Lemma map_exc_total {A B} (f : A -> Exc B) : forall l,
  Forall (fun a => exists b, f a = inr b) l -> exists bs, map_exc f l = inr bs.
Proof.
  induction 1 as [|a l [b Hb] _ [bs IH]]; [now exists []|].
  exists (b :: bs). simpl. rewrite Hb. cbn [bind]. rewrite IH. reflexivity.
Qed.

Lemma keyed_entries : forall entries keyed,
  map_exc (fun x => k <- outline_sort_key x ;; ret (k, x)) entries = inr keyed ->
  map snd keyed = entries
  /\ Forall (fun kx => outline_sort_key (snd kx) = inr (fst kx)) keyed.
Proof.
  intros entries keyed H. apply map_exc_inr in H.
  induction H as [|x kx entries keyed Hx _ [IH1 IH2]]; [split; constructor|].
  destruct (outline_sort_key x) as [e|k] eqn:Ek; [discriminate|].
  cbn [bind ret] in Hx. injection Hx as <-.
  split; [simpl; now rewrite IH1 | constructor; assumption].
Qed.

Lemma keys_of_keyed : forall (S : list (Q * Q * pydict)),
  Forall (fun kx => outline_sort_key (snd kx) = inr (fst kx)) S ->
  map_exc outline_sort_key (map snd S) = inr (map fst S).
Proof.
  induction 1 as [|kx S Hkx _ IH]; [reflexivity|].
  simpl. rewrite Hkx. cbn [bind]. rewrite IH. reflexivity.
Qed.

Lemma StronglySorted_map {A B} (f : A -> B) (R : B -> B -> Prop) l :
  StronglySorted (fun a b => R (f a) (f b)) l -> StronglySorted R (map f l).
Proof.
  induction 1 as [|a l _ IH Ha]; simpl; constructor; [exact IH|].
  rewrite Forall_forall in *. intros b Hb.
  apply in_map_iff in Hb. destruct Hb as [x [<- Hx]]. now apply Ha.
Qed.

(** X2: when every entry has a page and a vertical position, the sort of
    the outline returns a rearrangement of the entries in which the pairs
    (page, y_position) are in ascending order. *)
Theorem sort_outline_ordered :
  forall entries : list pydict,
    Forall has_sort_key entries ->
    exists out ks,
      sort_outline entries = inr out
      /\ Permutation out entries
      /\ map_exc outline_sort_key out = inr ks
      /\ StronglySorted pair_le ks.
Proof.
  intros entries Hkeys. unfold sort_outline.
  destruct (@map_exc_total _ _ (fun x => k <- outline_sort_key x ;; ret (k, x)) entries)
    as [keyed Hkeyed].
  { eapply Forall_impl; [|exact Hkeys]. intros x [k Hk].
    exists (k, x). now rewrite Hk. }
  rewrite Hkeyed. cbn [bind ret].
  destruct (keyed_entries _ Hkeyed) as [Hsnd Hall].
  set (S := sorted pair_ltb fst keyed).
  assert (Hperm : Permutation S keyed) by apply sorted_perm.
  exists (map snd S), (map fst S). split; [reflexivity|]. split; [|split].
  - rewrite <- Hsnd. now apply Permutation_map.
  - apply keys_of_keyed. rewrite Forall_forall in *. intros kx Hkx.
    apply Hall. eapply Permutation_in; eauto.
  - apply StronglySorted_map. apply sorted_pairs_ordered.
Qed.

Lemma sort_outline_ordered_witness :
  Forall has_sort_key
    [font_entry (str "H2") (str "Later") 2 (10 # 1) 14;
     font_entry (str "H1") (str "First") 1 (50 # 1) 16]
  /\ exists out ks,
       sort_outline
         [font_entry (str "H2") (str "Later") 2 (10 # 1) 14;
          font_entry (str "H1") (str "First") 1 (50 # 1) 16] = inr out
       /\ Permutation out
            [font_entry (str "H2") (str "Later") 2 (10 # 1) 14;
             font_entry (str "H1") (str "First") 1 (50 # 1) 16]
       /\ map_exc outline_sort_key out = inr ks
       /\ StronglySorted pair_le ks.
Proof.
  assert (H : Forall has_sort_key
    [font_entry (str "H2") (str "Later") 2 (10 # 1) 14;
     font_entry (str "H1") (str "First") 1 (50 # 1) 16]).
  { repeat constructor; eexists; reflexivity. }
  split; [exact H | exact (sort_outline_ordered H)].
Defined.

(* ================================================================== *)
(** * What the font statistics record *)
(* ================================================================== *)

Lemma Qeq_bool_compat_r k k0 k' :
  Qeq_bool k k0 = true -> Qeq_bool k' k = Qeq_bool k' k0.
Proof.
  intros H. destruct (Qeq_bool k' k) eqn:E1, (Qeq_bool k' k0) eqn:E2; try reflexivity.
  - rewrite (Qeq_bool_trans _ _ _ E1 H) in E2. discriminate.
  - apply Qeq_bool_sym in H. rewrite (Qeq_bool_trans _ _ _ E2 H) in E1. discriminate.
Qed.

Lemma Qeq_bool_compat_l k k0 k' :
  Qeq_bool k k0 = true -> Qeq_bool k k' = Qeq_bool k0 k'.
Proof.
  intros H. rewrite (Qeq_bool_comm k k'), (Qeq_bool_comm k0 k').
  now apply Qeq_bool_compat_r.
Qed.

Lemma dict_get_compat {V} (d : dict V) k k0 :
  Qeq_bool k k0 = true -> dict_get d k = dict_get d k0.
Proof.
  intros H. induction d as [|[k' v] d IH]; simpl; [reflexivity|].
  rewrite (@Qeq_bool_compat_r k k0 k' H). now rewrite IH.
Qed.

(** Reading a [defaultdict] after one of its values was updated. *)
Lemma dict_get_update {V} (dflt : V) f k k0 : forall d,
  dict_get (defaultdict_update dflt f d k) k0 =
  if Qeq_bool k k0
  then Some (f (match dict_get d k with Some v => v | None => dflt end))
  else dict_get d k0.
Proof.
  induction d as [|[k' v] d IH]; simpl.
  - reflexivity.
  - destruct (Qeq_bool k' k) eqn:E; simpl.
    + destruct (Qeq_bool k k0) eqn:E0.
      * now rewrite (Qeq_bool_trans _ _ _ E E0).
      * destruct (Qeq_bool k' k0) eqn:E1; [|reflexivity].
        apply Qeq_bool_sym in E.
        rewrite (Qeq_bool_trans _ _ _ E E1) in E0. discriminate.
    + rewrite IH. destruct (Qeq_bool k' k0) eqn:E1; [|reflexivity].
      destruct (Qeq_bool k k0) eqn:E0; [|reflexivity].
      apply Qeq_bool_sym in E0.
      rewrite (Qeq_bool_trans _ _ _ E1 E0) in E. discriminate.
Qed.

Lemma dict_keys_update {V} (dflt : V) f k : forall d,
  dict_keys (defaultdict_update dflt f d k) =
  if dict_mem d k then dict_keys d else dict_keys d ++ [k].
Proof.
  unfold dict_mem.
  induction d as [|[k' v] d IH]; simpl; [reflexivity|].
  destruct (Qeq_bool k' k) eqn:E; simpl; [reflexivity|].
  rewrite IH. now destruct (dict_get d k).
Qed.

Lemma dict_get_none_keys {V} (d : dict V) k :
  dict_get d k = None -> forallb (fun k' => negb (Qeq_bool k' k)) (dict_keys d) = true.
Proof.
  induction d as [|[k' v] d IH]; simpl; [reflexivity|].
  destruct (Qeq_bool k' k); [discriminate|]. exact IH.
Qed.

Lemma distinct_keys_snoc ks k :
  distinct_keys ks = true ->
  forallb (fun k' => negb (Qeq_bool k' k)) ks = true ->
  distinct_keys (ks ++ [k]) = true.
Proof.
  induction ks as [|a ks IH]; simpl; intros Hd Hk; [reflexivity|].
  apply andb_true_iff in Hd. destruct Hd as [Ha Hd].
  apply andb_true_iff in Hk. destruct Hk as [Hak Hk].
  rewrite forallb_app, Ha, IH by assumption. simpl. now rewrite Hak.
Qed.

Lemma distinct_keys_update {V} (dflt : V) f k d :
  distinct_keys (dict_keys d) = true ->
  distinct_keys (dict_keys (defaultdict_update dflt f d k)) = true.
Proof.
  intros H. rewrite dict_keys_update. unfold dict_mem.
  destruct (dict_get d k) eqn:E; [exact H|].
  apply distinct_keys_snoc; [exact H | now apply dict_get_none_keys].
Qed.

Lemma glyphs_at_compat k k0 gs :
  Qeq_bool k k0 = true -> glyphs_at k gs = glyphs_at k0 gs.
Proof.
  intros H. unfold glyphs_at. apply filter_ext. intros c.
  now apply Qeq_bool_compat_l.
Qed.

Lemma glyphs_at_snoc k gs c :
  glyphs_at k (gs ++ [c]) =
  glyphs_at k gs ++ (if Qeq_bool k (round1 (size c)) then [c] else []).
Proof. unfold glyphs_at. now rewrite filter_app. Qed.

Lemma stat_ok_new : stat_ok [] new_stat.
Proof. repeat split. now left. Qed.

Lemma stat_ok_add G st c : stat_ok G st -> stat_ok (G ++ [c]) (stat_add c st).
Proof.
  intros [Hc [Hp [Hb Hs]]]. unfold stat_ok, stat_add. cbn [count positions is_bold sample].
  split; [|split; [|split]].
  - rewrite Hc, length_app. simpl. lia.
  - now rewrite Hp, map_app.
  - rewrite Hb, existsb_app. simpl. now rewrite orb_false_r.
  - destruct (len (sample st) <? 50)%nat eqn:E.
    + apply Nat.ltb_lt in E. destruct Hs as [Hs | [Hs _]]; [|lia].
      left. rewrite Hs, map_app, concat_app. simpl. now rewrite app_nil_r.
    + apply Nat.ltb_ge in E. right. split; [exact E|].
      destruct Hs as [Hs | [_ [j [Hj Hs]]]].
      * exists (List.length G). split; [rewrite length_app; lia|].
        rewrite firstn_app, firstn_all, Nat.sub_diag. simpl.
        now rewrite app_nil_r.
      * exists j. split; [rewrite length_app; lia|].
        rewrite firstn_app.
        replace (j - List.length G)%nat with 0%nat by lia.
        simpl. now rewrite app_nil_r.
Qed.

Lemma stats_inv_step stats total seen c :
  stats_inv stats seen ->
  stats_inv (fst (analyze_char (stats, total) c)) (seen ++ [c]).
Proof.
  intros [Hd Hget]. cbn [analyze_char fst]. split.
  - now apply distinct_keys_update.
  - intros k0. rewrite dict_get_update, glyphs_at_snoc.
    rewrite (Qeq_bool_comm k0).
    destruct (Qeq_bool (round1 (size c)) k0) eqn:E.
    + specialize (Hget k0). rewrite (@dict_get_compat _ stats _ _ E).
      destruct (dict_get stats k0) as [st|].
      * destruct Hget as [_ Hok]. split; [now destruct (glyphs_at k0 seen)|].
        now apply stat_ok_add.
      * rewrite Hget. split; [discriminate|].
        apply (stat_ok_add c stat_ok_new).
    + rewrite app_nil_r. apply Hget.
Qed.

Lemma stats_inv_fold cs : forall stats total seen,
  stats_inv stats seen ->
  stats_inv (fst (fold_left analyze_char cs (stats, total))) (seen ++ cs).
Proof.
  induction cs as [|c cs IH]; intros stats total seen H.
  - now rewrite app_nil_r.
  - cbn [fold_left].
    pose proof (stats_inv_step total c H) as H'.
    destruct (analyze_char (stats, total) c) as [stats' total'] eqn:E.
    cbn [fst] in H'.
    replace (seen ++ c :: cs) with ((seen ++ [c]) ++ cs)
      by now rewrite <- app_assoc.
    now apply IH.
Qed.

Lemma dict_get_set_frequency total : forall (stats : dict Stat) k,
  dict_get (map (fun kv => (fst kv, set_frequency (snd kv) (frequency_of (snd kv) total)))
                stats) k
  = option_map (fun st => set_frequency st (frequency_of st total)) (dict_get stats k).
Proof.
  induction stats as [|[k' v] stats IH]; intros k; simpl; [reflexivity|].
  destruct (Qeq_bool k' k); [reflexivity | apply IH].
Qed.

Lemma dict_keys_set_frequency total (stats : dict Stat) :
  dict_keys (map (fun kv => (fst kv, set_frequency (snd kv) (frequency_of (snd kv) total)))
                 stats) = dict_keys stats.
Proof.
  unfold dict_keys. rewrite map_map. reflexivity.
Qed.

Lemma filter_length_le {A} (p : A -> bool) l :
  (List.length (filter p l) <= List.length l)%nat.
Proof.
  induction l as [|a l IH]; simpl; [lia|].
  destruct (p a); simpl; lia.
Qed.

Lemma frequency_of_range st total :
  (1 <= count st)%Z -> (count st <= total)%Z ->
  0 < frequency_of st total /\ frequency_of st total <= 1.
Proof.
  intros H1 H2. unfold frequency_of.
  destruct (Z.eqb_spec total 0); [lia|].
  assert (Ht : 0 < inject_Z total).
  { change 0 with (inject_Z 0). rewrite <- Zlt_Qlt. lia. }
  split.
  - apply Qlt_shift_div_l; [exact Ht|].
    rewrite Qmult_0_l. change 0 with (inject_Z 0). rewrite <- Zlt_Qlt. lia.
  - apply Qle_shift_div_r; [exact Ht|].
    rewrite Qmult_1_l. now rewrite <- Zle_Qle.
Qed.

(** The statistics the aggregator returns for the characters [gs] of a
    document whose pages are all readable. *)
Lemma analyze_font_statistics_inv pdf css :
  map_exc chars (pages pdf) = inr css ->
  exists stats0,
    _analyze_font_statistics pdf
    = inr (map (fun kv => (fst kv,
                  set_frequency (snd kv)
                    (frequency_of (snd kv) (Z.of_nat (List.length (List.concat css))))))
               stats0)
    /\ stats_inv stats0 (List.concat css).
Proof.
  intros Hcs. unfold _analyze_font_statistics.
  rewrite (analyze_pages_fold _ ([], 0%Z) Hcs).
  pose proof (@stats_inv_fold (List.concat css) [] 0%Z []) as Hinv.
  pose proof (proj2 (analyze_chars_counts (List.concat css) [] 0%Z)) as Htot.
  cbn zeta in Htot. simpl in Htot.
  destruct (fold_left analyze_char (List.concat css) ([], 0%Z)) as [stats0 tot] eqn:E.
  assert (Htot' : tot = Z.of_nat (List.length (List.concat css))).
  { change tot with (snd (stats0, tot)). rewrite <- E. exact Htot. }
  assert (Hinv' : stats_inv stats0 (List.concat css)).
  { change stats0 with (fst (stats0, tot)). rewrite <- E.
    apply Hinv. split; [reflexivity | intros k; reflexivity]. }
  exists stats0. cbn [bind ret]. now rewrite Htot'.
Qed.

(** X3: on a document whose pages are all readable, the statistics have one
    entry for each rounded size that occurs, under pairwise different keys;
    the entry of a size holds the number of characters of that size, their
    vertical positions in reading order of the pages, whether one of their
    font names contains "bold" in any case, a sample that is the text of all
    of them or of the first few once 50 characters are reached, and a
    frequency above 0 and at most 1. *)
Theorem analyze_font_statistics_entries :
  forall (pdf : Pdf) (css : list (list Glyph)),
    map_exc chars (pages pdf) = inr css ->
    exists stats,
      _analyze_font_statistics pdf = inr stats
      /\ distinct_keys (dict_keys stats) = true
      /\ (forall c, In c (List.concat css) ->
            dict_mem stats (round1 (size c)) = true)
      /\ (forall k st, In (k, st) stats ->
            glyphs_at k (List.concat css) <> []
            /\ stat_ok (glyphs_at k (List.concat css)) st
            /\ 0 < frequency st /\ frequency st <= 1).
Proof.
  intros pdf css Hcs.
  destruct (analyze_font_statistics_inv pdf Hcs) as [stats0 [Hrun [Hd Hget]]].
  set (gs := List.concat css) in *.
  set (total := Z.of_nat (List.length gs)) in *.
  eexists. split; [exact Hrun|].
  split; [now rewrite dict_keys_set_frequency|]. split.
  - intros c Hc. unfold dict_mem. rewrite dict_get_set_frequency.
    specialize (Hget (round1 (size c))).
    destruct (dict_get stats0 (round1 (size c))); [reflexivity|].
    exfalso. assert (Hin : In c (glyphs_at (round1 (size c)) gs)).
    { apply filter_In. split; [exact Hc | apply Qeq_bool_refl]. }
    rewrite Hget in Hin. exact Hin.
  - intros k st Hin. apply in_map_iff in Hin.
    destruct Hin as [[k0 st0] [E Hin0]]. cbn [fst snd] in E.
    injection E as -> <-.
    specialize (Hget k). rewrite (dict_get_distinct _ _ _ Hd Hin0) in Hget.
    destruct Hget as [Hne Hok]. split; [exact Hne|]. split; [exact Hok|].
    cbn [frequency set_frequency].
    destruct Hok as [Hc _]. apply frequency_of_range.
    + rewrite Hc. destruct (glyphs_at k gs); [congruence | simpl; lia].
    + rewrite Hc. unfold total. apply inj_le. apply filter_length_le.
Qed.

Lemma analyze_font_statistics_entries_witness :
  map_exc chars (pages (sample_pdf (str "Part 1")))
  = inr [glyphs_of 10 100 0 (repeat "x"%char 100) ++ glyphs_of 16 50 0 (str "Part 1")]
  /\ exists stats,
       _analyze_font_statistics (sample_pdf (str "Part 1")) = inr stats
       /\ distinct_keys (dict_keys stats) = true.
Proof.
  split; [reflexivity|].
  destruct (@analyze_font_statistics_entries (sample_pdf (str "Part 1")) _ eq_refl)
    as [stats [H1 [H2 _]]].
  exists stats. split; assumption.
Defined.

(* ================================================================== *)
(** * Which sizes the classifier selects *)
(* ================================================================== *)

Lemma bind_inr {A B} (m : Exc A) (a : A) (k : A -> Exc B) :
  m = inr a -> bind m k = k a.
Proof. now intros ->. Qed.

Lemma level_names_skip n :
  (n < 3)%nat ->
  skipn n level_names = level_name (Z.of_nat n + 1) :: skipn (S n) level_names.
Proof.
  intros H. destruct n as [|[|[|n]]]; try reflexivity. lia.
Qed.

(** One turn of the loop: the invariant is kept, and the size is added
    exactly when it qualifies and fewer than three sizes were added. *)
Lemma identify_step_spec self stats body sz ks headings level :
  In sz (dict_keys stats) ->
  StronglySorted (fun a b => b < a) (sz :: ks) ->
  identify_inv self stats body (sz :: ks) (headings, level) ->
  exists st',
    identify_step self stats body (headings, level) sz = inr st'
    /\ identify_inv self stats body ks st'
    /\ fst st' =
       if qualifies self stats body sz && (List.length headings <? 3)%nat
       then headings ++ [(sz, level_name level)]
       else headings.
Proof.
  intros Hin Hs Hinv.
  apply StronglySorted_inv in Hs. destruct Hs as [Hs Hsz].
  destruct Hinv as [Hlvl [Hlen [Hnames [Hsorted [Habove Hcond]]]]].
  cbn [fst snd] in *.
  destruct (dict_get_in stats sz Hin) as [stat Hget].
  unfold identify_step, getitem, qualifies. rewrite Hget. cbn [bind ret].
  assert (Habove' : Forall (fun h => Forall (fun k => k < h) ks) (map fst headings)).
  { eapply Forall_impl; [|exact Habove].
    intros h Hh. apply Forall_cons_iff in Hh. tauto. }
  assert (Elvl : (level <=? 3)%Z = (List.length headings <? 3)%nat).
  { rewrite Hlvl. destruct (Nat.ltb_spec (List.length headings) 3).
    - apply Z.leb_le. lia.
    - apply Z.leb_gt. lia. }
  rewrite Elvl.
  destruct (Qltb (body + font_size_threshold self) sz
            && (Qltb (1 # 1000) (frequency stat) && Qltb (frequency stat) (1 # 10)))
    eqn:Etest; cbn [andb].
  - destruct (List.length headings <? 3)%nat eqn:El.
    + apply Nat.ltb_lt in El.
      apply andb_true_iff in Etest. destruct Etest as [Ebody Efreq].
      apply andb_true_iff in Efreq. destruct Efreq as [Elo Ehi].
      apply Qltb_lt in Ebody, Elo, Ehi.
      assert (Hfresh : Forall (fun k' => sz < k') (dict_keys headings)).
      { unfold dict_keys. eapply Forall_impl; [|exact Habove].
        intros h Hh. apply Forall_cons_iff in Hh. tauto. }
      rewrite (dict_set_fresh headings (level_name level) Hfresh).
      eexists. split; [reflexivity|]. split; [|reflexivity].
      unfold identify_inv. cbn [fst snd].
      rewrite length_app, !map_app. cbn [List.length map fst snd].
      replace (List.length headings + 1)%nat with (S (List.length headings)) by lia.
      split; [lia|]. split; [lia|]. split; [|split; [|split]].
      * rewrite Hnames, Hlvl. apply level_names_next. lia.
      * apply StronglySorted_snoc; [exact Hsorted|exact Hfresh].
      * apply Forall_app. split; [exact Habove'|]. now constructor.
      * apply Forall_app. split; [exact Hcond|].
        constructor; [|constructor]. now exists stat.
    + eexists. split; [reflexivity|]. split; [|reflexivity].
      unfold identify_inv. cbn [fst snd]. tauto.
  - eexists. split; [reflexivity|]. split; [|reflexivity].
    unfold identify_inv. cbn [fst snd]. tauto.
Qed.

Lemma identify_loop_exact self stats body : forall ks headings level,
  (forall k, In k ks -> In k (dict_keys stats)) ->
  StronglySorted (fun a b => b < a) ks ->
  identify_inv self stats body ks (headings, level) ->
  exists st',
    for_each ks (identify_step self stats body) (headings, level) = inr st'
    /\ fst st' = headings
                 ++ combine (filter (qualifies self stats body) ks)
                            (skipn (List.length headings) level_names).
Proof.
  induction ks as [|sz ks IH]; intros headings level Hks Hs Hinv.
  - exists (headings, level). split; [reflexivity|]. simpl. now rewrite app_nil_r.
  - destruct (@identify_step_spec self stats body sz ks headings level)
      as [[h1 l1] [Hstep [Hinv1 Hfst]]]; [apply Hks; now left | exact Hs | exact Hinv |].
    cbn [fst] in Hfst. cbn [for_each]. rewrite Hstep. cbn [bind].
    apply StronglySorted_inv in Hs. destruct Hs as [Hs _].
    destruct (IH h1 l1) as [st' [Hrun Hres]];
      [intros k Hk; apply Hks; now right | exact Hs | exact Hinv1 |].
    destruct Hinv as [Hlvl [Hlen _]]. cbn [fst snd] in Hlvl, Hlen.
    exists st'. split; [exact Hrun|]. rewrite Hres. cbn [filter].
    destruct (qualifies self stats body sz); cbn [andb] in Hfst.
    + destruct (List.length headings <? 3)%nat eqn:El; subst h1.
      * apply Nat.ltb_lt in El. rewrite (level_names_skip El). cbn [combine].
        rewrite length_app. cbn [List.length].
        replace (List.length headings + 1)%nat with (S (List.length headings)) by lia.
        rewrite <- app_assoc. cbn [app]. now rewrite Hlvl.
      * apply Nat.ltb_ge in El.
        assert (E : List.length headings = 3%nat) by lia. rewrite E.
        cbn [skipn level_names]. now rewrite !combine_nil.
    + subst h1. reflexivity.
Qed.

(** X4: on a non-empty statistics dictionary with pairwise different keys,
    the heading sizes are the sizes that pass the test (more than the
    threshold above the body size, frequency strictly between 0.001 and 0.1)
    taken in descending order, the first labelled H1, the second H2, the third
    H3; a fourth and later qualifying sizes get no level. *)
Theorem identify_heading_fonts_exact :
  forall (self : PDFOutlineExtractor) (stats : dict Stat),
    stats <> [] ->
    distinct_keys (dict_keys stats) = true ->
    exists body headings,
      body_size_of stats = inr body
      /\ _identify_heading_fonts self stats = inr headings
      /\ headings =
         combine (filter (qualifies self stats body)
                         (sorted_reverse Qltb (fun s => s) (dict_keys stats)))
                 level_names.
Proof.
  intros self stats Hne Hd.
  rewrite (identify_heading_fonts_nonempty self Hne).
  destruct (body_size_of_spec Hne Hd) as [body [stb [Hbody _]]].
  exists body. rewrite Hbody. cbn [bind].
  destruct (@identify_loop_exact self stats body
              (sorted_reverse Qltb (fun s : Q => s) (dict_keys stats)) [] 1%Z)
    as [st' [Hrun Hres]].
  - intros k Hk. eapply Permutation_in; [|exact Hk]. apply sorted_reverse_perm.
  - now apply sorted_reverse_desc.
  - unfold identify_inv. cbn [fst snd List.length map].
    split; [reflexivity|]. split; [lia|]. split; [reflexivity|].
    split; [constructor|]. split; constructor.
  - exists (fst st'). split; [reflexivity|].
    split; [|exact Hres].
    erewrite bind_inr by exact Hrun. reflexivity.
Qed.

Lemma identify_heading_fonts_exact_witness :
  distinct_keys (dict_keys sample_stats) = true
  /\ exists body headings,
       body_size_of sample_stats = inr body
       /\ _identify_heading_fonts __init__ sample_stats = inr headings
       /\ headings =
          combine (filter (qualifies __init__ sample_stats body)
                          (sorted_reverse Qltb (fun s => s) (dict_keys sample_stats)))
                  level_names.
Proof.
  split; [reflexivity|].
  apply identify_heading_fonts_exact; [discriminate | reflexivity].
Defined.

(* ================================================================== *)
(** * The primary size of a line and the headings of a page *)
(* ================================================================== *)

Lemma occurrences_snoc k seen x :
  occurrences k (seen ++ [x]) =
  (occurrences k seen + (if Qeq_bool x k then 1 else 0))%Z.
Proof.
  unfold occurrences. rewrite filter_app, length_app. simpl.
  destruct (Qeq_bool x k); simpl; lia.
Qed.

Lemma counter_inv_step d seen x :
  counter_inv d seen ->
  counter_inv (defaultdict_update 0%Z Z.succ d x) (seen ++ [x]).
Proof.
  intros [Hd [Hkeys Hget]]. split; [|split].
  - now apply distinct_keys_update.
  - intros k Hk. rewrite dict_keys_update in Hk. apply in_or_app.
    destruct (dict_mem d x).
    + left. now apply Hkeys.
    + apply in_app_or in Hk. destruct Hk as [Hk | Hk]; [left; now apply Hkeys | now right].
  - intros k. rewrite dict_get_update, occurrences_snoc.
    destruct (Qeq_bool x k) eqn:E.
    + rewrite (@dict_get_compat _ d _ _ E). specialize (Hget k).
      destruct (dict_get d k) as [n|].
      * destruct Hget as [-> Hpos]. split; lia.
      * rewrite Hget. split; reflexivity.
    + rewrite Z.add_0_r. apply Hget.
Qed.

Lemma counter_inv_fold xs : forall d seen,
  counter_inv d seen ->
  counter_inv (fold_left (fun d x => defaultdict_update 0%Z Z.succ d x) xs d)
              (seen ++ xs).
Proof.
  induction xs as [|x xs IH]; intros d seen H.
  - now rewrite app_nil_r.
  - cbn [fold_left].
    replace (seen ++ x :: xs) with ((seen ++ [x]) ++ xs) by now rewrite <- app_assoc.
    apply IH. now apply counter_inv_step.
Qed.

Lemma counter_spec xs : counter_inv (counter xs) xs.
Proof.
  apply (@counter_inv_fold xs [] []).
  split; [reflexivity|]. split; [intros k []|]. intros k. reflexivity.
Qed.

Lemma occurrences_pos x xs : In x xs -> (0 < occurrences x xs)%Z.
Proof.
  intros H. unfold occurrences.
  assert (Hin : In x (filter (fun x' => Qeq_bool x' x) xs)).
  { apply filter_In. split; [exact H | apply Qeq_bool_refl]. }
  destruct (filter (fun x' => Qeq_bool x' x) xs); [contradiction | simpl; lia].
Qed.

(** The primary size of a non-empty sequence of sizes is one of them, and
    none occurs more often. *)
Lemma most_common1_nonempty xs :
  xs <> [] ->
  exists k,
    most_common1 xs = inr k
    /\ In k xs
    /\ forall x, In x xs -> (occurrences x xs <= occurrences k xs)%Z.
Proof.
  intros Hne. destruct (counter_spec xs) as [Hd [Hkeys Hget]].
  unfold most_common1.
  destruct (counter xs) as [|kv0 rest] eqn:Ec.
  - exfalso. destruct xs as [|x0 xs']; [congruence|].
    specialize (Hget x0). simpl in Hget.
    pose proof (@occurrences_pos x0 (x0 :: xs') (or_introl eq_refl)). lia.
  - cbn [map max_by bind ret].
    destruct (max_by_from_spec
                (map (fun kv : Q * Z => (kv, inject_Z (snd kv))) rest)
                kv0 (inject_Z (snd kv0))) as [q [Hin Hmax]].
    set (best := max_by_from _ _ _) in *.
    set (items := kv0 :: rest) in *.
    assert (Hlist : (kv0, inject_Z (snd kv0))
                    :: map (fun kv : Q * Z => (kv, inject_Z (snd kv))) rest
                    = map (fun kv : Q * Z => (kv, inject_Z (snd kv))) items)
      by reflexivity.
    rewrite Hlist in Hin, Hmax.
    apply in_map_iff in Hin. destruct Hin as [kv [E Hkv]].
    injection E as -> <-.
    exists (fst best). split; [reflexivity|].
    assert (Hbest : dict_get items (fst best) = Some (snd best)).
    { apply dict_get_distinct; [exact Hd | now destruct best]. }
    split.
    + apply Hkeys. unfold dict_keys. now apply in_map.
    + intros x Hx. pose proof (Hget x) as Hx'. pose proof (Hget (fst best)) as Hb.
      rewrite Hbest in Hb. destruct Hb as [Hb _].
      destruct (dict_get items x) as [n|] eqn:En.
      * destruct Hx' as [Hn _]. rewrite <- Hn, <- Hb.
        destruct (dict_get_some_in items x En) as [k' [Hk' _]].
        rewrite Zle_Qle. apply (Hmax (k', n)).
        apply in_map_iff. now exists (k', n).
      * pose proof (occurrences_pos x xs Hx). lia.
Qed.

(** X5: the primary size of a line, [Counter(sizes).most_common(1)[0][0]],
    is one of the sizes, and no size occurs more often in the line; an empty
    sequence raises [IndexError]. *)
Theorem most_common1_primary :
  most_common1 [] = inl IndexError
  /\ forall xs, xs <> [] ->
       exists k,
         most_common1 xs = inr k
         /\ In k xs
         /\ forall x, In x xs -> (occurrences x xs <= occurrences k xs)%Z.
Proof.
  split; [reflexivity | exact most_common1_nonempty].
Qed.

Lemma most_common1_primary_witness :
  exists k,
    most_common1 sample_sizes = inr k
    /\ In k sample_sizes
    /\ forall x, In x sample_sizes ->
         (occurrences x sample_sizes <= occurrences k sample_sizes)%Z.
Proof.
  apply (proj2 most_common1_primary). discriminate.
Defined.

Lemma heading_from_cons self hf n l lines d :
  heading_from self hf n lines d -> heading_from self hf n (l :: lines) d.
Proof.
  intros [line [lvl [sz [Hin H]]]]. exists line, lvl, sz. split; [now right | exact H].
Qed.

(** The loop over the lines of a page. *)
Lemma headings_loop self hf n : forall lines acc,
  Forall (fun l => l <> []) lines ->
  exists hs,
    for_each lines (heading_of_line self hf n) acc = inr (acc ++ hs)
    /\ (List.length hs <= List.length lines)%nat
    /\ Forall (heading_from self hf n lines) hs
    /\ (hf = [] -> hs = []).
Proof.
  induction lines as [|l lines IH]; intros acc Hne.
  - exists []. simpl. rewrite app_nil_r. repeat split; auto.
  - apply Forall_cons_iff in Hne. destruct Hne as [Hl Hne].
    cbn [for_each]. unfold heading_of_line at 1.
    destruct (in_bounds self (line_text l)) eqn:Eb; cbn [negb].
    + destruct (@most_common1_nonempty (map (fun c => round1 (size c)) l))
        as [sz [Hsz _]].
      { intros E. apply map_eq_nil in E. contradiction. }
      rewrite Hsz. cbn [bind]. unfold dict_mem, getitem.
      destruct (dict_get hf sz) as [lvl|] eqn:Eg.
      * cbn [bind ret]. rewrite py_min_min_of.
        2:{ intros E. apply map_eq_nil in E. contradiction. }
        cbn [bind ret].
        destruct (IH (acc ++ [font_entry lvl (_clean_heading_text self (line_text l)) n
                               (min_of (map top l)) sz]) Hne)
          as [hs [Hrun [Hlen [Hall Hnil]]]].
        exists (font_entry lvl (_clean_heading_text self (line_text l)) n
                  (min_of (map top l)) sz :: hs).
        split; [|split; [|split]].
        -- rewrite <- app_assoc in Hrun. exact Hrun.
        -- simpl. lia.
        -- constructor.
           ++ exists l, lvl, sz. repeat split; try assumption. now left.
           ++ eapply Forall_impl; [|exact Hall]. intros d. apply heading_from_cons.
        -- intros ->. discriminate.
      * cbn [bind ret].
        destruct (IH acc Hne) as [hs [Hrun [Hlen [Hall Hnil]]]].
        exists hs. split; [exact Hrun|]. split; [simpl; lia|]. split; [|exact Hnil].
        eapply Forall_impl; [|exact Hall]. intros d. apply heading_from_cons.
    + cbn [bind ret].
      destruct (IH acc Hne) as [hs [Hrun [Hlen [Hall Hnil]]]].
      exists hs. split; [exact Hrun|]. split; [simpl; lia|]. split; [|exact Hnil].
      eapply Forall_impl; [|exact Hall]. intros d. apply heading_from_cons.
Qed.

Lemma extract_page_headings_ok self page hf n cs :
  chars page = inr cs ->
  exists hs,
    _extract_page_headings self page hf n = inr hs
    /\ (List.length hs <= List.length (_group_by_line cs))%nat
    /\ Forall (heading_from self hf n (_group_by_line cs)) hs
    /\ (hf = [] -> hs = []).
Proof.
  intros Hcs. unfold _extract_page_headings. rewrite Hcs. cbn [bind].
  destruct (@headings_loop self hf n (_group_by_line cs) [])
    as [hs H]; [apply group_by_line_nonempty|].
  exists hs. exact H.
Qed.

(** X6: the page heading extractor propagates the failure of an unreadable
    page; on a readable page it returns, for some of the lines, one entry
    each: the line passes the length test, its primary size is a key of the
    heading font map, and the entry holds the level of that size, the
    cleaned text of the line, the page number, the smallest vertical position
    of the line and the primary size.  With an empty heading font map no
    entry is returned. *)
Theorem extract_page_headings_entries :
  forall (self : PDFOutlineExtractor) (page : Page) (heading_fonts : dict pystr)
         (page_num : Z),
    (forall e, chars page = inl e ->
       _extract_page_headings self page heading_fonts page_num = inl e)
    /\ (forall cs, chars page = inr cs ->
          exists hs,
            _extract_page_headings self page heading_fonts page_num = inr hs
            /\ (List.length hs <= List.length (_group_by_line cs))%nat
            /\ Forall (heading_from self heading_fonts page_num (_group_by_line cs)) hs
            /\ (heading_fonts = [] -> hs = [])).
Proof.
  intros self page hf n. split.
  - intros e He. unfold _extract_page_headings. now rewrite He.
  - intros cs. apply extract_page_headings_ok.
Qed.

Lemma extract_page_headings_entries_witness :
  exists hs,
    _extract_page_headings __init__ (sample_page (str "Intro"))
      [(16, str "H1")] 1 = inr hs
    /\ (List.length hs <= List.length
          (_group_by_line (glyphs_of 10 100 0 (repeat "x"%char 100)
                           ++ glyphs_of 16 50 0 (str "Intro"))))%nat.
Proof.
  destruct (proj2 (extract_page_headings_entries __init__ (sample_page (str "Intro"))
                     [(16, str "H1")] 1) _ eq_refl)
    as [hs [H1 [H2 _]]].
  exists hs. split; assumption.
Defined.

(* ================================================================== *)
(** * The font-based stage as a whole *)
(* ================================================================== *)

Lemma sort_outline_inr entries out :
  sort_outline entries = inr out ->
  Permutation out entries
  /\ exists ks, map_exc outline_sort_key out = inr ks /\ StronglySorted pair_le ks.
Proof.
  unfold sort_outline. intros H.
  destruct (map_exc (fun x => k <- outline_sort_key x ;; ret (k, x)) entries)
    as [e|keyed] eqn:Hkeyed; [discriminate|].
  cbn [bind ret] in H. injection H as <-.
  destruct (keyed_entries _ Hkeyed) as [Hsnd Hall].
  set (S := sorted pair_ltb fst keyed).
  assert (Hperm : Permutation S keyed) by apply sorted_perm.
  split.
  - rewrite <- Hsnd. now apply Permutation_map.
  - exists (map fst S). split.
    + apply keys_of_keyed. rewrite Forall_forall in *. intros kx Hkx.
      apply Hall. eapply Permutation_in; eauto.
    + apply StronglySorted_map. apply sorted_pairs_ordered.
Qed.

Lemma extract_title_from_page_len self page t :
  _extract_title_from_page self page = inr t -> (len t <= 200)%nat.
Proof.
  unfold _extract_title_from_page, try_except.
  destruct (chars page) as [e|cs]; cbn [bind].
  - intros H; injection H as <-. simpl. lia.
  - destruct (for_each _ _ _) as [e|cands]; cbn [bind].
    + intros H; injection H as <-. simpl. lia.
    + destruct cands as [|c cands].
      * intros H; injection H as <-. simpl. lia.
      * destruct (max_by_float _) as [e|best]; cbn [bind ret].
        -- intros H; injection H as <-. simpl. lia.
        -- intros H; injection H as <-. apply clean_title_text_len.
Qed.

Lemma analyze_pages_readable ps : forall acc r,
  for_each ps analyze_page acc = inr r -> exists css, map_exc chars ps = inr css.
Proof.
  induction ps as [|p ps IH]; intros acc r H.
  - now exists [].
  - cbn [for_each] in H. unfold analyze_page at 1 in H.
    destruct (chars p) as [e|cs] eqn:Ep; [discriminate|]. cbn [bind ret] in H.
    destruct (IH _ _ H) as [css Hcss].
    exists (cs :: css). simpl. rewrite Ep. cbn [bind]. rewrite Hcss. reflexivity.
Qed.

(** The statistics of a document, whenever they are returned, have pairwise
    different keys. *)
Lemma analyze_font_statistics_distinct pdf stats :
  _analyze_font_statistics pdf = inr stats -> distinct_keys (dict_keys stats) = true.
Proof.
  intros H.
  assert (Hcss : exists css, map_exc chars (pages pdf) = inr css).
  { unfold _analyze_font_statistics in H.
    destruct (for_each (pages pdf) analyze_page ([], 0%Z)) as [e|r] eqn:E; [discriminate|].
    eapply analyze_pages_readable; eauto. }
  destruct Hcss as [css Hcss].
  destruct (analyze_font_statistics_inv pdf Hcss) as [stats0 [Hrun [Hd _]]].
  rewrite Hrun in H. injection H as <-.
  now rewrite dict_keys_set_frequency.
Qed.

(** The labels of the heading font map are level names. *)
Lemma identify_heading_fonts_labels self stats hf :
  distinct_keys (dict_keys stats) = true ->
  _identify_heading_fonts self stats = inr hf ->
  Forall (fun kv => In (snd kv) level_names) hf.
Proof.
  intros Hd H. destruct (list_eq_dec_nil stats) as [-> | Hne].
  - injection H as <-. constructor.
  - rewrite (identify_heading_fonts_nonempty self Hne) in H.
    destruct (body_size_of_spec Hne Hd) as [body [stb [Hbody _]]].
    rewrite Hbody in H. cbn [bind] in H.
    destruct (@identify_loop_exact self stats body
                (sorted_reverse Qltb (fun s : Q => s) (dict_keys stats)) [] 1%Z)
      as [st' [Hrun Hres]].
    + intros k Hk. eapply Permutation_in; [|exact Hk]. apply sorted_reverse_perm.
    + now apply sorted_reverse_desc.
    + unfold identify_inv. cbn [fst snd List.length map].
      split; [reflexivity|]. split; [lia|]. split; [reflexivity|].
      split; [constructor|]. split; constructor.
    + erewrite bind_inr in H by exact Hrun. cbn [ret] in H. injection H as <-.
      rewrite Hres. cbn [app List.length skipn].
      apply Forall_forall. intros [k v] Hin. cbn [snd].
      eapply in_combine_r. exact Hin.
Qed.

Lemma font_entry_ok_weaken self n m d :
  (n <= m)%Z -> font_entry_ok self n d -> font_entry_ok self m d.
Proof.
  intros Hnm [lvl [txt [p [y [sz [E [Hl [Hp Ht]]]]]]]].
  exists lvl, txt, p, y, sz. repeat split; try assumption; lia.
Qed.

Lemma page_headings_ok self hf page i hs :
  Forall (fun kv => In (snd kv) level_names) hf ->
  (1 <= i)%Z ->
  _extract_page_headings self page hf i = inr hs ->
  Forall (font_entry_ok self i) hs.
Proof.
  intros Hhf Hi H.
  destruct (chars page) as [e|cs] eqn:Ec.
  - unfold _extract_page_headings in H. rewrite Ec in H. discriminate.
  - destruct (@extract_page_headings_ok self page hf i cs Ec) as [hs' [Hrun [_ [Hall _]]]].
    rewrite Hrun in H. injection H as <-.
    eapply Forall_impl; [|exact Hall].
    intros d [line [lvl [sz [_ [_ [_ [Hget ->]]]]]]].
    exists lvl, (_clean_heading_text self (line_text line)), i,
           (min_of (map top line)), sz.
    split; [reflexivity|]. split; [|split; [lia | apply clean_heading_text_upper]].
    destruct (dict_get_some_in hf sz Hget) as [k' [Hin _]].
    rewrite Forall_forall in Hhf. apply (Hhf (k', lvl) Hin).
Qed.

Lemma entries_loop self hf : forall ps i acc out,
  Forall (fun kv => In (snd kv) level_names) hf ->
  (1 <= i)%Z ->
  for_each (enumerate i ps)
    (fun acc ip =>
       hs <- _extract_page_headings self (snd ip) hf (fst ip) ;;
       ret (acc ++ hs)) acc = inr out ->
  Forall (font_entry_ok self (i - 1)) acc ->
  Forall (font_entry_ok self (i - 1 + Z.of_nat (List.length ps))) out.
Proof.
  induction ps as [|p ps IH]; intros i acc out Hhf Hi H Hacc.
  - simpl in H. injection H as <-. simpl. now rewrite Z.add_0_r.
  - cbn [enumerate for_each fst snd] in H.
    destruct (_extract_page_headings self p hf i) as [e|hs] eqn:Ep; [discriminate|].
    cbn [bind ret] in H.
    replace (i - 1 + Z.of_nat (List.length (p :: ps)))%Z
      with (i + 1 - 1 + Z.of_nat (List.length ps))%Z
      by (cbn [List.length]; lia).
    apply (IH (i + 1)%Z (acc ++ hs)); [exact Hhf | lia | exact H |].
    apply Forall_app. split.
    + eapply Forall_impl; [|exact Hacc]. intros d. apply font_entry_ok_weaken. lia.
    + eapply Forall_impl; [|exact (page_headings_ok _ _ Hhf Hi Ep)].
      intros d. apply font_entry_ok_weaken. lia.
Qed.

(** X7: the font-based stage always returns.  Its title has at most 200
    characters; its outline is in ascending order of (page, y_position); and
    when the file opens, every entry has the five fields level, text, page,
    y_position and font_size, with a level among H1, H2, H3, a page number
    between 1 and the number of pages, and a text no longer than
    [max_heading_chars].  When the file does not open the result is empty. *)
Theorem font_based_outline_shape :
  forall (self : PDFOutlineExtractor) (env : Env) (pdf_path : pystr),
    exists r,
      _extract_font_based_outline self env pdf_path = inr r
      /\ (len (title r) <= 200)%nat
      /\ (exists ks,
            map_exc outline_sort_key (outline r) = inr ks
            /\ StronglySorted pair_le ks)
      /\ (forall pdf, pdfplumber_open env pdf_path = inr pdf ->
            Forall (font_entry_ok self (Z.of_nat (List.length (pages pdf))))
                   (outline r))
      /\ (forall e, pdfplumber_open env pdf_path = inl e -> r = empty_outline).
Proof.
  intros self env pdf_path.
  unfold _extract_font_based_outline.
  destruct (extract_font_based_outline_try self env pdf_path) as [e|r] eqn:Etry.
  - exists empty_outline. cbn [try_except ret].
    split; [reflexivity|]. split; [simpl; lia|].
    split; [exists []; split; [reflexivity | constructor]|].
    split; [intros; constructor | reflexivity].
  - exists r. cbn [try_except]. split; [reflexivity|].
    unfold extract_font_based_outline_try in Etry.
    destruct (pdfplumber_open env pdf_path) as [e|pdf] eqn:Eo; [discriminate|].
    cbn [bind] in Etry.
    destruct (_analyze_font_statistics pdf) as [e|stats] eqn:Ea; [discriminate|].
    cbn [bind] in Etry.
    destruct (_identify_heading_fonts self stats) as [e|hf] eqn:Ei; [discriminate|].
    cbn [bind] in Etry.
    destruct (for_each (enumerate 1 (pages pdf)) _ []) as [e|entries] eqn:El;
      [discriminate|].
    cbn [bind] in Etry.
    destruct (match pages pdf with
              | [] => ret []
              | p0 :: _ => _extract_title_from_page self p0
              end) as [e|ttl] eqn:Et; [discriminate|].
    cbn [bind] in Etry.
    destruct (sort_outline entries) as [e|sorted_entries] eqn:Es; [discriminate|].
    cbn [bind ret] in Etry. injection Etry as <-. cbn [title outline].
    destruct (sort_outline_inr _ Es) as [Hperm Hkeys].
    split; [|split; [exact Hkeys | split; [|discriminate]]].
    + destruct (pages pdf) as [|p0 ps].
      * injection Et as <-. simpl. lia.
      * eapply extract_title_from_page_len; eauto.
    + intros pdf' E. injection E as <-.
      assert (Hhf : Forall (fun kv => In (snd kv) level_names) hf).
      { eapply identify_heading_fonts_labels; [|exact Ei].
        eapply analyze_font_statistics_distinct; eauto. }
      pose proof (@entries_loop self hf (pages pdf) 1%Z [] entries Hhf
                    (Z.le_refl 1) El (Forall_nil _)) as Hall.
      replace (1 - 1 + Z.of_nat (List.length (pages pdf)))%Z
        with (Z.of_nat (List.length (pages pdf))) in Hall by lia.
      rewrite Forall_forall in *. intros d Hd. apply Hall.
      eapply Permutation_in; eauto.
Qed.

Lemma font_based_outline_shape_witness :
  pdfplumber_open (sample_env (str "Intro")) (str "paper.pdf")
  = inr (sample_pdf (str "Intro"))
  /\ exists r,
       _extract_font_based_outline __init__ (sample_env (str "Intro")) (str "paper.pdf")
       = inr r
       /\ Forall (font_entry_ok __init__ 1) (outline r).
Proof.
  split; [reflexivity|].
  destruct (font_based_outline_shape __init__ (sample_env (str "Intro")) (str "paper.pdf"))
    as [r [H1 [_ [_ [H2 _]]]]].
  exists r. split; [exact H1|]. exact (H2 _ eq_refl).
Defined.

(* ================================================================== *)
(** * Fixed points of the heading cleaner *)
(* ================================================================== *)










(* ================================================================== *)
(** * The title cleaner and file names *)
(* ================================================================== *)

Lemma match_ci_split kw : forall s r,
  match_ci kw s = Some r -> exists pre, s = pre ++ r /\ map lower pre = kw.
Proof.
  induction kw as [|k kw IH]; simpl; intros s r H.
  - injection H as ->. now exists [].
  - destruct s as [|c s]; [discriminate|].
    destruct (Ascii.eqb (lower c) k) eqn:E; [|discriminate].
    apply Ascii.eqb_eq in E. destruct (IH _ _ H) as [pre [-> Hpre]].
    exists (c :: pre). split; [reflexivity|]. simpl. now rewrite E, Hpre.
Qed.

Lemma match_ci_app kw : forall pre r,
  map lower pre = kw -> match_ci kw (pre ++ r) = Some r.
Proof.
  induction kw as [|k kw IH]; intros pre r H.
  - apply map_eq_nil in H. now subst.
  - destruct pre as [|c pre]; [discriminate|]. simpl in H. injection H as Hc Hpre.
    simpl. rewrite Hc, Ascii.eqb_refl. now apply IH.
Qed.

Lemma at_dollar_cases r :
  at_dollar r = true -> r = [] \/ r = [ascii_of_nat 10].
Proof.
  destruct r as [|c [|c' r]]; simpl; try discriminate; [now left|].
  intros H. apply Ascii.eqb_eq in H. subst. now right.
Qed.

(** What the suffix pattern matches: a dot, the letters of an extension,
    and then the end of the text or its final newline. *)
Lemma match_file_suffix_some s r :
  match_file_suffix s = Some r ->
  at_dollar r = true
  /\ exists pre, s = "."%char :: pre ++ r /\ file_extension pre.
Proof.
  unfold match_file_suffix, file_extension.
  destruct s as [|c s]; [discriminate|].
  destruct (Ascii.eqb c ".") eqn:Ec; [|discriminate].
  apply Ascii.eqb_eq in Ec. subst c.
  destruct (match_ci (str "pdf") s) as [r1|] eqn:E1.
  - destruct (at_dollar r1) eqn:Ed; [|discriminate].
    intros H; injection H as <-. split; [exact Ed|].
    destruct (match_ci_split _ _ E1) as [pre [-> Hpre]].
    exists pre. split; [reflexivity | now left].
  - destruct (match_ci (str "doc") s) as [r2|] eqn:E2; [|discriminate].
    destruct (match_ci_split _ _ E2) as [pre [-> Hpre]].
    destruct (match_ci (str "x") r2) as [r3|] eqn:E3.
    + destruct (match_ci_split _ _ E3) as [pre' [-> Hpre']].
      destruct (at_dollar r3) eqn:Ed3.
      * intros H; injection H as <-. split; [exact Ed3|].
        exists (pre ++ pre'). split; [now rewrite <- app_assoc|].
        right; right. rewrite map_app, Hpre, Hpre'. reflexivity.
      * destruct (at_dollar (pre' ++ r3)) eqn:Ed2; [|discriminate].
        intros H; injection H as <-. split; [exact Ed2|].
        exists pre. split; [reflexivity | right; now left].
    + destruct (at_dollar r2) eqn:Ed2; [|discriminate].
      intros H; injection H as <-. split; [exact Ed2|].
      exists pre. split; [reflexivity | right; now left].
Qed.

Ltac extension_letters He :=
  destruct He as [He | [He | He]];
  match type of He with
  | map lower ?e = _ =>
      destruct e as [|?a [|?b [|?c [|?d [|? ?]]]]]; cbn in He; try discriminate He;
      injection He as ?Ha ?Hb ?Hc
  end.

(** An extension alone is matched up to its end. *)
Lemma match_file_suffix_ext e :
  file_extension e -> match_file_suffix ("."%char :: e) = Some [].
Proof.
  intros He. extension_letters He; unfold match_file_suffix; cbn;
    repeat (match goal with H : lower _ = _ |- _ => rewrite H; clear H end; cbn);
    reflexivity.
Qed.

(** Nothing is matched at a position before the extension. *)
Lemma match_file_suffix_before c t e :
  file_extension e -> match_file_suffix (c :: t ++ "."%char :: e) = None.
Proof.
  intros He.
  destruct (match_file_suffix (c :: t ++ "."%char :: e)) as [r|] eqn:E; [|reflexivity].
  exfalso. destruct (match_file_suffix_some _ E) as [Hd [pre [Hs Hpre]]].
  injection Hs as _ Hs.
  destruct (at_dollar_cases _ Hd) as [-> | ->].
  - rewrite app_nil_r in Hs. subst pre.
    assert (Hin : In "."%char (map lower (t ++ "."%char :: e))).
    { rewrite map_app. apply in_or_app. right. now left. }
    destruct Hpre as [Hp | [Hp | Hp]]; rewrite Hp in Hin; cbn in Hin;
      intuition discriminate.
  - assert (Hlast : exists e' z, e = e' ++ [z] /\ lower z <> ascii_of_nat 10).
    { extension_letters He.
      - exists [a; b], c0. split; [reflexivity|]. rewrite Hc. discriminate.
      - exists [a; b], c0. split; [reflexivity|]. rewrite Hc. discriminate.
      - exists [a; b; c0], d. split; [reflexivity|].
        match goal with H : lower d = _ |- _ => rewrite H end.
        discriminate. }
    destruct Hlast as [e' [z [-> Hz]]].
    replace (t ++ "."%char :: e' ++ [z]) with ((t ++ "."%char :: e') ++ [z]) in Hs
      by now rewrite <- app_assoc.
    apply app_inj_tail in Hs. destruct Hs as [_ Hzn]. subst z.
    apply Hz. reflexivity.
Qed.

Lemma sub_file_suffix_ext t e :
  file_extension e -> sub_file_suffix (t ++ "."%char :: e) = t.
Proof.
  intros He. induction t as [|c t IH].
  - cbn [app sub_file_suffix]. now rewrite (match_file_suffix_ext He).
  - cbn [app sub_file_suffix]. rewrite (match_file_suffix_before c t He).
    now rewrite IH.
Qed.

(** X9: a title in white-space normal form that ends with [.pdf], [.doc]
    or [.docx], in any case, is cleaned to what stands before the extension,
    cut to 200 characters; earlier dots in the title are kept. *)
Theorem clean_title_text_extension :
  forall (self : PDFOutlineExtractor) (t e : pystr),
    normalized (t ++ "."%char :: e) ->
    file_extension e ->
    _clean_title_text self (t ++ "."%char :: e) = firstn 200 t.
Proof.
  intros self t e Hn He. unfold _clean_title_text.
  rewrite (join_split_id Hn). now rewrite (sub_file_suffix_ext t He).
Qed.

Lemma clean_title_text_extension_witness :
  _clean_title_text __init__ (str "Report v1.2 final" ++ "."%char :: str "PDF")
  = firstn 200 (str "Report v1.2 final").
Proof.
  apply clean_title_text_extension.
  - right. reflexivity.
  - left. reflexivity.
Defined.

(* ================================================================== *)
(** * Title resolution and the choice between the two stages *)
(* ================================================================== *)

Lemma extract_title_from_page_returns self page :
  exists t, _extract_title_from_page self page = inr t.
Proof. apply try_except_returns. Qed.

(** X10: title resolution.  When [pymupdf] cannot open the file or give its
    metadata, the title is empty and the first page is not looked at; a
    non-empty metadata title is returned cleaned, whatever [pdfplumber] does;
    with an empty or missing metadata title the result is the title of the
    first page, or the empty string when [pdfplumber] cannot open the file
    or the document has no page. *)
Theorem extract_title_cases :
  forall (self : PDFOutlineExtractor) (env : Env) (pdf_path : pystr),
    (forall e, pymupdf_open env pdf_path = inl e ->
       _extract_title self env pdf_path = inr [])
    /\ (forall doc e, pymupdf_open env pdf_path = inr doc ->
          metadata_title doc = inl e ->
          _extract_title self env pdf_path = inr [])
    /\ (forall doc c s, pymupdf_open env pdf_path = inr doc ->
          metadata_title doc = inr (Some (c :: s)) ->
          _extract_title self env pdf_path = inr (_clean_title_text self (c :: s)))
    /\ (forall doc t, pymupdf_open env pdf_path = inr doc ->
          metadata_title doc = inr t ->
          t = None \/ t = Some [] ->
          (forall e, pdfplumber_open env pdf_path = inl e ->
             _extract_title self env pdf_path = inr [])
          /\ (forall pdf, pdfplumber_open env pdf_path = inr pdf ->
                _extract_title self env pdf_path =
                match pages pdf with
                | p0 :: _ => _extract_title_from_page self p0
                | [] => inr []
                end)).
Proof.
  intros self env pdf_path. unfold _extract_title, extract_title_try.
  split; [|split; [|split]].
  - intros e ->. reflexivity.
  - intros doc e Ho Hm. rewrite Ho. cbn [bind]. rewrite Hm. reflexivity.
  - intros doc c s Ho Hm. rewrite Ho. cbn [bind]. rewrite Hm. reflexivity.
  - intros doc t Ho Hm Ht. rewrite Ho. cbn [bind]. rewrite Hm. cbn [bind]. split.
    + intros e ->. destruct Ht as [-> | ->]; reflexivity.
    + intros pdf ->.
      assert (E : forall x : Exc pystr,
                 (exists v, x = inr v) -> try_except x (fun _ => ret []) = x).
      { intros x [v ->]. reflexivity. }
      destruct Ht as [-> | ->]; cbn [bind];
        (destruct (pages pdf) as [|p0 ps];
         [reflexivity | apply E, extract_title_from_page_returns]).
Qed.

Lemma extract_title_cases_witness :
  pymupdf_open sample_toc_env (str "report.pdf") = inr sample_toc_doc
  /\ _extract_title __init__ sample_toc_env (str "report.pdf") = inr (str "Report").
Proof.
  split; [reflexivity|].
  destruct (extract_title_cases __init__ sample_toc_env (str "report.pdf"))
    as [_ [_ [H _]]].
  exact (H sample_toc_doc _ _ eq_refl eq_refl).
Defined.

Lemma extract_title_len self env pdf_path t :
  _extract_title self env pdf_path = inr t -> (len t <= 200)%nat.
Proof.
  unfold _extract_title, extract_title_try, try_except.
  destruct (pymupdf_open env pdf_path) as [e|doc]; cbn [bind].
  { intros H; injection H as <-. simpl. lia. }
  destruct (metadata_title doc) as [e|mt]; cbn [bind].
  { intros H; injection H as <-. simpl. lia. }
  assert (Hpage : forall x : Exc pystr,
            (forall v, x = inr v -> (len v <= 200)%nat) ->
            match x with inl _ => ret [] | inr a => inr a end = inr t ->
            (len t <= 200)%nat).
  { intros x Hx. destruct x as [e|v]; intros H; injection H as <-;
      [simpl; lia | now apply Hx]. }
  assert (Hplumb :
            match (pdf <- pdfplumber_open env pdf_path ;;
                   match pages pdf with
                   | [] => ret []
                   | p0 :: _ => _extract_title_from_page self p0
                   end) with
            | inl _ => ret []
            | inr a => inr a
            end = inr t -> (len t <= 200)%nat).
  { apply Hpage. intros v Hv.
    destruct (pdfplumber_open env pdf_path) as [e|pdf]; [discriminate|].
    cbn [bind] in Hv. destruct (pages pdf) as [|p0 ps].
    - injection Hv as <-. simpl. lia.
    - eapply extract_title_from_page_len; eauto. }
  destruct mt as [[|c s]|]; try exact Hplumb.
  cbn [ret]. intros H; injection H as <-. apply clean_title_text_len.
Qed.

Lemma extract_pymupdf_outline_title_len self env pdf_path o :
  _extract_pymupdf_outline self env pdf_path = inr o -> (len (title o) <= 200)%nat.
Proof.
  unfold _extract_pymupdf_outline, extract_pymupdf_outline_try, try_except.
  destruct (pymupdf_open env pdf_path) as [e|doc]; cbn [bind].
  { intros H; injection H as <-. simpl. lia. }
  destruct (get_toc doc) as [e|toc]; cbn [bind].
  { intros H; injection H as <-. simpl. lia. }
  destruct (metadata_title doc) as [e|[s|]]; cbn [bind ret raise];
    intros H; injection H as <-; cbn [title empty_outline];
    try (simpl; lia).
  apply clean_title_text_len.
Qed.

Lemma extract_font_based_outline_title_len self env pdf_path o :
  _extract_font_based_outline self env pdf_path = inr o -> (len (title o) <= 200)%nat.
Proof.
  unfold _extract_font_based_outline.
  destruct (extract_font_based_outline_try self env pdf_path) as [e|r] eqn:Etry;
    cbn [try_except ret]; intros H; injection H as <-; [simpl; lia|].
  unfold extract_font_based_outline_try in Etry.
  destruct (pdfplumber_open env pdf_path) as [e|pdf]; [discriminate|].
  cbn [bind] in Etry.
  destruct (_analyze_font_statistics pdf) as [e|stats]; [discriminate|].
  cbn [bind] in Etry.
  destruct (_identify_heading_fonts self stats) as [e|hf]; [discriminate|].
  cbn [bind] in Etry.
  destruct (for_each (enumerate 1 (pages pdf)) _ []) as [e|entries]; [discriminate|].
  cbn [bind] in Etry.
  destruct (match pages pdf with
            | [] => ret []
            | p0 :: _ => _extract_title_from_page self p0
            end) as [e|ttl] eqn:Et; [discriminate|].
  cbn [bind] in Etry.
  destruct (sort_outline entries) as [e|sorted_entries]; [discriminate|].
  cbn [bind ret] in Etry. injection Etry as <-. cbn [title].
  destruct (pages pdf) as [|p0 ps].
  - injection Et as <-. simpl. lia.
  - eapply extract_title_from_page_len; eauto.
Qed.

(** How [extract_outline] combines the results of its stages. *)
Lemma extract_outline_compose self env pdf_path :
  exists o1 o2 t,
    _extract_pymupdf_outline self env pdf_path = inr o1
    /\ _extract_font_based_outline self env pdf_path = inr o2
    /\ _extract_title self env pdf_path = inr t
    /\ extract_outline self env pdf_path =
       inr (let o := match outline o1 with [] => o2 | _ :: _ => o1 end in
            match title o with
            | [] => {| title := t; outline := outline o |}
            | _ :: _ => o
            end).
Proof.
  destruct (try_except_returns (extract_pymupdf_outline_try self env pdf_path)
              empty_outline) as [o1 H1].
  destruct (try_except_returns (extract_font_based_outline_try self env pdf_path)
              empty_outline) as [o2 H2].
  destruct (try_except_returns (extract_title_try self env pdf_path) [])
    as [t H3].
  change (_extract_pymupdf_outline self env pdf_path = inr o1) in H1.
  change (_extract_font_based_outline self env pdf_path = inr o2) in H2.
  change (_extract_title self env pdf_path = inr t) in H3.
  exists o1, o2, t. repeat (split; [assumption|]).
  unfold extract_outline, extract_outline_try. rewrite H1. cbn [bind].
  destruct (outline o1) as [|d ds] eqn:Eo.
  - rewrite H2. cbn [bind]. destruct (title o2) eqn:Et.
    + rewrite H3. reflexivity.
    + reflexivity.
  - cbn [bind ret]. destruct (title o1) eqn:Et.
    + rewrite H3. reflexivity.
    + reflexivity.
Qed.

(** X11: the result of [extract_outline] is built from the results of the
    three stages, which all return: the outline is that of the
    embedded-outline stage unless it is empty, in which case the outline and
    the title of the font-based stage replace those of the embedded-outline
    stage; and the title of [_extract_title] is used only when the chosen
    title is empty. *)
Theorem extract_outline_stages :
  forall (self : PDFOutlineExtractor) (env : Env) (pdf_path : pystr),
    exists o1 o2 t,
      _extract_pymupdf_outline self env pdf_path = inr o1
      /\ _extract_font_based_outline self env pdf_path = inr o2
      /\ _extract_title self env pdf_path = inr t
      /\ extract_outline self env pdf_path =
         inr (let o := match outline o1 with [] => o2 | _ :: _ => o1 end in
              match title o with
              | [] => {| title := t; outline := outline o |}
              | _ :: _ => o
              end).
Proof.
  intros self env pdf_path.
  destruct (try_except_returns (extract_pymupdf_outline_try self env pdf_path)
              empty_outline) as [o1 H1].
  destruct (try_except_returns (extract_font_based_outline_try self env pdf_path)
              empty_outline) as [o2 H2].
  destruct (try_except_returns (extract_title_try self env pdf_path) [])
    as [t H3].
  change (_extract_pymupdf_outline self env pdf_path = inr o1) in H1.
  change (_extract_font_based_outline self env pdf_path = inr o2) in H2.
  change (_extract_title self env pdf_path = inr t) in H3.
  exists o1, o2, t. repeat (split; [assumption|]).
  unfold extract_outline, extract_outline_try. rewrite H1. cbn [bind].
  destruct (outline o1) as [|d ds] eqn:Eo.
  - rewrite H2. cbn [bind]. destruct (title o2) eqn:Et.
    + rewrite H3. reflexivity.
    + reflexivity.
  - cbn [bind ret]. destruct (title o1) eqn:Et.
    + rewrite H3. reflexivity.
    + reflexivity.
Qed.

(** X12: the title of every result has at most 200 characters, in
    [extract_outline] and in what [process_pdfs] writes. *)
Theorem extract_outline_title_len :
  forall (env : Env) (pdf_path : pystr),
    (len (title (process_pdf env pdf_path)) <= 200)%nat
    /\ forall self r, extract_outline self env pdf_path = inr r ->
         (len (title r) <= 200)%nat.
Proof.
  intros env pdf_path.
  assert (H : forall self r, extract_outline self env pdf_path = inr r ->
                (len (title r) <= 200)%nat).
  { intros self r Hr.
    destruct (extract_outline_compose self env pdf_path)
      as [o1 [o2 [t [H1 [H2 [H3 Hc]]]]]].
    rewrite Hc in Hr. injection Hr as <-. cbn zeta.
    pose proof (extract_pymupdf_outline_title_len _ _ _ H1).
    pose proof (extract_font_based_outline_title_len _ _ _ H2).
    pose proof (extract_title_len _ _ _ H3).
    destruct (outline o1); cbn beta iota.
    - destruct (title o2) eqn:E; cbn [title]; [assumption | now rewrite E].
    - destruct (title o1) eqn:E; cbn [title]; [assumption | now rewrite E]. }
  split; [|exact H].
  unfold process_pdf.
  destruct (extract_outline __init__ env pdf_path) as [e|r] eqn:E.
  - simpl. lia.
  - eapply H; eauto.
Qed.

Lemma extract_outline_title_len_witness :
  extract_outline __init__ sample_toc_env (str "report.pdf")
  = inr {| title := str "Report";
           outline := toc_outline __init__ sample_toc |}
  /\ (len (str "Report") <= 200)%nat.
Proof.
  split; [reflexivity|].
  exact (proj2 (extract_outline_title_len sample_toc_env (str "report.pdf"))
           __init__ _ eq_refl).
Defined.

(** X13: when the document opens with a table of contents of which at
    least one entry is kept and with a metadata title, the outline of the
    result is the outline of the table of contents, whatever [pdfplumber]
    does; every entry has exactly the fields level, text and page; and a
    metadata title that is not empty after cleaning is the title. *)
Theorem extract_outline_embedded_first :
  forall (self : PDFOutlineExtractor) (env : Env) (pdf_path : pystr)
         (doc : MuDoc) (toc : list TocEntry) (t : pystr),
    pymupdf_open env pdf_path = inr doc ->
    get_toc doc = inr toc ->
    metadata_title doc = inr (Some t) ->
    filter (toc_kept self) toc <> [] ->
    exists r,
      extract_outline self env pdf_path = inr r
      /\ outline r = map (toc_entry self) (filter (toc_kept self) toc)
      /\ Forall (fun d => json_fields d = ["level"; "text"; "page"]%string) (outline r)
      /\ (_clean_title_text self t <> [] -> title r = _clean_title_text self t).
Proof.
  intros self env pdf_path doc toc t Hopen Htoc Htitle Hkept.
  destruct (extract_outline_compose self env pdf_path)
    as [o1 [o2 [t' [H1 [_ [_ Hc]]]]]].
  assert (E1 : o1 = {| title := _clean_title_text self t;
                       outline := toc_outline self toc |}).
  { unfold _extract_pymupdf_outline, extract_pymupdf_outline_try in H1.
    rewrite Hopen in H1. cbn [bind] in H1. rewrite Htoc in H1. cbn [bind] in H1.
    rewrite Htitle in H1. cbn [bind ret try_except] in H1. now injection H1 as <-. }
  subst o1. cbn [outline title] in Hc.
  assert (Hne : toc_outline self toc <> []).
  { rewrite toc_outline_filter_map. intros E. apply map_eq_nil in E. contradiction. }
  destruct (toc_outline self toc) as [|d ds] eqn:Eo; [congruence|].
  cbn zeta in Hc. cbn [title outline] in Hc.
  eexists. split; [exact Hc|].
  assert (Hout : outline (match _clean_title_text self t with
                          | [] => {| title := t'; outline := d :: ds |}
                          | _ :: _ => {| title := _clean_title_text self t;
                                         outline := d :: ds |}
                          end) = d :: ds).
  { now destruct (_clean_title_text self t). }
  rewrite Hout. split; [|split].
  - rewrite <- Eo. apply toc_outline_filter_map.
  - rewrite <- Eo. apply toc_outline_fields.
  - intros Hnz. destruct (_clean_title_text self t); [congruence | reflexivity].
Qed.

Lemma extract_outline_embedded_first_witness :
  filter (toc_kept __init__) sample_toc <> []
  /\ exists r,
       extract_outline __init__ sample_toc_env (str "report.pdf") = inr r
       /\ outline r = map (toc_entry __init__) (filter (toc_kept __init__) sample_toc).
Proof.
  assert (H : filter (toc_kept __init__) sample_toc <> [])
    by (vm_compute; discriminate).
  split; [exact H|].
  destruct (@extract_outline_embedded_first __init__ sample_toc_env (str "report.pdf")
              sample_toc_doc sample_toc (str "Report") eq_refl eq_refl eq_refl H)
    as [r [H1 [H2 _]]].
  exists r. split; assumption.
Defined.

(* ================================================================== *)
(** * Shape of a cleaned heading *)
(* ================================================================== *)

Lemma join_cons_len w ws :
  (len (join (w :: ws)) <= len w + 1 + len (join ws))%nat.
Proof.
  unfold len. destruct ws as [|w' ws'].
  - simpl. lia.
  - change (join (w :: w' :: ws')) with (w ++ space :: join (w' :: ws')).
    rewrite length_app. simpl. lia.
Qed.

Lemma join_split_from_len s : forall cur,
  (len (join (split_from cur s)) <= len cur + len s)%nat.
Proof.
  induction s as [|c s IH]; intros cur.
  - destruct cur as [|a cur']; simpl; [lia|].
    unfold len. rewrite length_app, length_rev. simpl. lia.
  - cbn [split_from]. destruct (is_space c).
    + destruct cur as [|a cur'].
      * specialize (IH []). unfold len in *. simpl in *. lia.
      * pose proof (join_cons_len (rev (a :: cur')) (split_from [] s)) as H.
        specialize (IH []). unfold len in *.
        rewrite length_rev in H. simpl in *. lia.
    + specialize (IH (c :: cur)). unfold len in *. simpl in *. lia.
Qed.

(** X14: whatever the input, the cleaned heading text is in white-space
    normal form (single blanks between words, none at either end), has at
    most [max_heading_chars] characters and is not longer than the input. *)
Theorem clean_heading_text_shape :
  forall (self : PDFOutlineExtractor) (s : pystr),
    normalized (_clean_heading_text self s)
    /\ (len (_clean_heading_text self s) <= max_heading_chars self)%nat
    /\ (len (_clean_heading_text self s) <= len s)%nat.
Proof.
  intros self s. split; [apply clean_heading_text_normalized|].
  split; [apply clean_heading_text_upper|].
  unfold _clean_heading_text.
  destruct (in_bounds self (sub_ordinal_prefix (join (split s)))); [|simpl; lia].
  pose proof (sub_trailing_number_len (sub_ordinal_prefix (join (split s)))).
  pose proof (sub_ordinal_prefix_len (join (split s))).
  pose proof (join_split_from_len s []) as Hj.
  unfold split, len in *. cbn [List.length] in Hj. lia.
Qed.

(* ================================================================== *)
(** * Edge cases of the font-based stage *)
(* ================================================================== *)

Lemma analyze_pages_unreadable ps : forall acc p e,
  In p ps -> chars p = inl e ->
  exists e', for_each ps analyze_page acc = inl e'.
Proof.
  induction ps as [|q ps IH]; intros acc p e Hin Hp; [contradiction|].
  cbn [for_each]. unfold analyze_page at 1.
  destruct (chars q) as [eq|cs] eqn:Eq; cbn [bind ret].
  - now exists eq.
  - destruct Hin as [-> | Hin]; [congruence|].
    eapply IH; eauto.
Qed.

(** X15: the font-based stage gives the empty result, not a partial one,
    as soon as one page of the document is unreadable; and a document
    without pages gives the empty result. *)
Theorem font_based_outline_all_or_nothing :
  forall (self : PDFOutlineExtractor) (env : Env) (pdf_path : pystr) (pdf : Pdf),
    pdfplumber_open env pdf_path = inr pdf ->
    (forall p e, In p (pages pdf) -> chars p = inl e ->
       _extract_font_based_outline self env pdf_path = inr empty_outline)
    /\ (pages pdf = [] ->
        _extract_font_based_outline self env pdf_path = inr empty_outline).
Proof.
  intros self env pdf_path pdf Hopen. split.
  - intros p e Hin Hp.
    unfold _extract_font_based_outline, extract_font_based_outline_try.
    rewrite Hopen. cbn [bind]. unfold _analyze_font_statistics.
    destruct (@analyze_pages_unreadable (pages pdf) ([], 0%Z) p e Hin Hp) as [e' He'].
    rewrite He'. reflexivity.
  - intros Hnil.
    unfold _extract_font_based_outline, extract_font_based_outline_try.
    rewrite Hopen. cbn [bind]. unfold _analyze_font_statistics.
    rewrite Hnil. reflexivity.
Qed.

Lemma font_based_outline_all_or_nothing_witness :
  In damaged_page (pages damaged_pdf)
  /\ _extract_font_based_outline __init__ damaged_env (str "paper.pdf")
     = inr empty_outline.
Proof.
  assert (Hin : In damaged_page (pages damaged_pdf)) by (right; now left).
  split; [exact Hin|].
  exact (proj1 (@font_based_outline_all_or_nothing __init__ damaged_env
                  (str "paper.pdf") damaged_pdf eq_refl)
           damaged_page (LibraryError "damaged page") Hin eq_refl).
Defined.

Lemma stats_single_size stats gs :
  stats_inv stats gs ->
  (forall c c', In c gs -> In c' gs -> round1 (size c) == round1 (size c')) ->
  stats = [] \/ exists k st, stats = [(k, st)].
Proof.
  intros [Hd Hget] Hsame.
  destruct stats as [|[k1 st1] [|[k2 st2] rest]]; [now left | right; eauto |].
  exfalso.
  assert (Hkey : forall k st, In (k, st) ((k1, st1) :: (k2, st2) :: rest) ->
                   exists c, In c gs /\ k == round1 (size c)).
  { intros k st Hin. specialize (Hget k).
    rewrite (dict_get_distinct _ _ _ Hd Hin) in Hget. destruct Hget as [Hne _].
    destruct (glyphs_at k gs) as [|c G] eqn:EG; [congruence|].
    assert (Hc : In c (glyphs_at k gs)) by (rewrite EG; now left).
    apply filter_In in Hc. destruct Hc as [Hc Hk].
    exists c. split; [exact Hc | now apply Qeq_bool_eq]. }
  destruct (Hkey k1 st1 (or_introl eq_refl)) as [c1 [Hc1 E1]].
  destruct (Hkey k2 st2 (or_intror (or_introl eq_refl))) as [c2 [Hc2 E2]].
  simpl in Hd. apply andb_true_iff in Hd. destruct Hd as [Hd _].
  apply andb_true_iff in Hd. destruct Hd as [Hd _].
  apply negb_true_iff in Hd. apply Qeq_bool_neq in Hd. apply Hd.
  rewrite E1, E2. now apply Hsame.
Qed.

Lemma identify_single_size self k st :
  0 <= font_size_threshold self ->
  _identify_heading_fonts self [(k, st)] = inr [].
Proof.
  intros Hthr. unfold _identify_heading_fonts, body_size_of.
  cbn [dict_keys map map_exc fst]. unfold getitem. cbn [dict_get].
  rewrite Qeq_bool_refl. cbn [bind ret max_by max_by_from].
  unfold sorted_reverse. cbn [rev app sorted insert_sorted for_each].
  unfold identify_step, getitem. cbn [dict_get]. rewrite Qeq_bool_refl.
  cbn [bind ret].
  assert (E : Qltb (k + font_size_threshold self) k = false).
  { apply Qltb_ge. rewrite <- (Qplus_0_r k) at 1.
    apply Qplus_le_r. exact Hthr. }
  rewrite E. reflexivity.
Qed.

Lemma entries_loop_no_fonts self : forall ps css i,
  map_exc chars ps = inr css ->
  for_each (enumerate i ps)
    (fun acc ip =>
       hs <- _extract_page_headings self (snd ip) [] (fst ip) ;;
       ret (acc ++ hs)) [] = inr [].
Proof.
  induction ps as [|p ps IH]; intros css i H; [reflexivity|].
  simpl in H. destruct (chars p) as [e|cs] eqn:Ep; [discriminate|].
  cbn [bind] in H. destruct (map_exc chars ps) as [e|css'] eqn:Eps; [discriminate|].
  cbn [enumerate for_each fst snd].
  destruct (@extract_page_headings_ok self p [] i cs Ep) as [hs [Hrun [_ [_ Hnil]]]].
  rewrite Hrun, (Hnil eq_refl). cbn [bind ret app].
  eapply IH. reflexivity.
Qed.

(** X16: a readable document whose characters all have the same rounded
    size has no heading: with a threshold that is not negative the font-based
    stage returns an empty outline. *)
Theorem font_based_outline_uniform :
  forall (self : PDFOutlineExtractor) (env : Env) (pdf_path : pystr)
         (pdf : Pdf) (css : list (list Glyph)),
    0 <= font_size_threshold self ->
    pdfplumber_open env pdf_path = inr pdf ->
    map_exc chars (pages pdf) = inr css ->
    (forall c c', In c (List.concat css) -> In c' (List.concat css) ->
       round1 (size c) == round1 (size c')) ->
    exists r,
      _extract_font_based_outline self env pdf_path = inr r /\ outline r = [].
Proof.
  intros self env pdf_path pdf css Hthr Hopen Hcss Hsame.
  destruct (analyze_font_statistics_inv pdf Hcss) as [stats0 [Hrun Hinv]].
  assert (Hhf : _identify_heading_fonts self
                  (map (fun kv => (fst kv,
                          set_frequency (snd kv)
                            (frequency_of (snd kv)
                               (Z.of_nat (List.length (List.concat css))))))
                       stats0) = inr []).
  { destruct (stats_single_size Hinv Hsame) as [-> | [k [st ->]]].
    - reflexivity.
    - cbn [map fst snd]. now apply identify_single_size. }
  unfold _extract_font_based_outline, extract_font_based_outline_try.
  rewrite Hopen. cbn [bind]. rewrite Hrun. cbn [bind]. rewrite Hhf. cbn [bind].
  rewrite (entries_loop_no_fonts self (pages pdf) 1 Hcss). cbn [bind].
  destruct (pages pdf) as [|p0 ps].
  - eexists. split; [reflexivity | reflexivity].
  - destruct (extract_title_from_page_returns self p0) as [t Ht].
    rewrite Ht. eexists. split; [reflexivity | reflexivity].
Qed.

Lemma font_based_outline_uniform_witness :
  exists r,
    _extract_font_based_outline __init__ flat_env (str "flat.pdf") = inr r
    /\ outline r = [].
Proof.
  apply (@font_based_outline_uniform __init__ flat_env (str "flat.pdf") flat_pdf
           [glyphs_of 12 40 0 (str "All the same")]).
  - vm_compute. discriminate.
  - reflexivity.
  - reflexivity.
  - intros c c' Hc Hc'. cbn in Hc, Hc'.
    repeat (destruct Hc as [<- | Hc]; [|]); try contradiction;
      repeat (destruct Hc' as [<- | Hc']; [|]); try contradiction; reflexivity.
Defined.

(* ================================================================== *)
(** * Edge cases of the embedded-outline stage *)
(* ================================================================== *)

(** X17: the embedded-outline stage gives the empty result, and the table of
    contents is not used, when [pymupdf] cannot open the file, when the table
    of contents or the metadata cannot be read, and when the metadata title
    is [None], on which the title cleaner raises. *)
Theorem extract_pymupdf_outline_failures :
  forall (self : PDFOutlineExtractor) (env : Env) (pdf_path : pystr),
    (forall e, pymupdf_open env pdf_path = inl e ->
       _extract_pymupdf_outline self env pdf_path = inr empty_outline)
    /\ (forall doc e, pymupdf_open env pdf_path = inr doc ->
          get_toc doc = inl e ->
          _extract_pymupdf_outline self env pdf_path = inr empty_outline)
    /\ (forall doc toc e, pymupdf_open env pdf_path = inr doc ->
          get_toc doc = inr toc -> metadata_title doc = inl e ->
          _extract_pymupdf_outline self env pdf_path = inr empty_outline)
    /\ (forall doc toc, pymupdf_open env pdf_path = inr doc ->
          get_toc doc = inr toc -> metadata_title doc = inr None ->
          _extract_pymupdf_outline self env pdf_path = inr empty_outline).
Proof.
  intros self env pdf_path.
  unfold _extract_pymupdf_outline, extract_pymupdf_outline_try.
  split; [|split; [|split]].
  - intros e ->. reflexivity.
  - intros doc e Ho Ht. rewrite Ho. cbn [bind]. rewrite Ht. reflexivity.
  - intros doc toc e Ho Ht Hm. rewrite Ho. cbn [bind]. rewrite Ht. cbn [bind].
    rewrite Hm. reflexivity.
  - intros doc toc Ho Ht Hm. rewrite Ho. cbn [bind]. rewrite Ht. cbn [bind].
    rewrite Hm. reflexivity.
Qed.

Lemma extract_pymupdf_outline_failures_witness :
  _extract_pymupdf_outline __init__
    {| pymupdf_open := fun _ =>
         inr {| get_toc := inr sample_toc; metadata_title := inr None |};
       pdfplumber_open := fun _ => inl (LibraryError "not needed") |}
    (str "report.pdf")
  = inr empty_outline.
Proof.
  exact (proj2 (proj2 (proj2
           (extract_pymupdf_outline_failures __init__
              {| pymupdf_open := fun _ =>
                   inr {| get_toc := inr sample_toc; metadata_title := inr None |};
                 pdfplumber_open := fun _ => inl (LibraryError "not needed") |}
              (str "report.pdf"))))
           _ sample_toc eq_refl eq_refl eq_refl).
Defined.
